(** * TPIE pipelining glue for AMI containers (tpie/pipelining/ami_glue.h)

    A shallow embedding of the three source nodes of [ami_glue.h]
    ([input_ami_stream_t], [input_ami_stack_t], [pull_input_ami_stack_t]) and
    of the three builders that wire them into a pipeline, followed by the
    properties of the nodes: what reaches the downstream, in which order, how
    the progress counters move, and what is left of the container. *)

From Stdlib Require Import ZArith.
From stdpp Require Import base list strings gmap relations.
From Equations Require Import Equations.
From Equations.Prop Require Import Logic.

Local Open Scope Z_scope.

(** ** Results of C++ code *)

(** A call either returns, or runs into undefined behaviour (here: reading
    through a pointer that no call has set). *)
Inductive outcome (A : Type) : Type :=
| Returns (a : A)
| Undefined.
Arguments Returns {A} a.
Arguments Undefined {A}.

(** One evaluation of [while (cond) { body }]: the condition held and the body
    ran, or the condition failed and the loop is left. *)
Inductive loop (A : Type) : Type :=
| Continue (a : A)
| Break (a : A)
| Undef.
Arguments Continue {A} a.
Arguments Break {A} a.
Arguments Undef {A}.

Section while_loop.
Context {A : Type} (iter : A -> loop A) (bound : A -> nat).
Hypothesis iter_decreases :
  forall a a', iter a = Continue a' -> (bound a' < bound a)%nat.

(** The state [a'] is the loop head that follows the loop head [a]. *)
Definition next (a a' : A) : Prop := iter a = Continue a'.

Equations while (a : A) : outcome A by wf (bound a) lt :=
  while a with inspect (iter a) => {
    | exist _ (Continue a') Hiter => while a';
    | exist _ (Break a') _ => Returns a';
    | exist _ Undef _ => Undefined }.
End while_loop.

(** ** tpie::ami: the external containers *)

Module ami.

(** Modelled from the spec: the status codes of [tpie::ami] are declared
    outside this header. The header names [NO_ERROR]; the end of the data is
    its own status, and every other status is a container error. *)
Inductive err : Set :=
| NO_ERROR
| IO_ERROR
| END_OF_STREAM.

#[export] Instance err_eq_dec : EqDecision err.
Proof. solve_decision. Defined.

Section containers.
Context {T : Type}.

(** Modelled from the spec: [tpie::ami::stream<T>] is declared outside
    this header. An ordered finite sequence of items with a read cursor.
    A read can end in a container error: [s_bad] is the position, if any,
    whose item the storage fails to deliver. *)
Record stream : Type := mk_stream {
  s_items : list T;
  s_pos : nat;
  s_bad : option nat
}.

(** Modelled from the spec: [stream_len()], the number of items. *)
Definition stream_len (s : stream) : Z := Z.of_nat (length (s_items s)).

(** Modelled from the spec: [seek(off)] moves the cursor. Positions up to
    the length are accepted; the adapters only seek to 0. *)
Definition seek (off : nat) (s : stream) : err * stream :=
  if decide (off <= length (s_items s))%nat
  then (NO_ERROR, mk_stream (s_items s) off (s_bad s))
  else (END_OF_STREAM, s).

(** Modelled from the spec: [read_item(&item)] delivers the item under the
    cursor and advances the cursor. The result is the status, the pointer
    stored through [&item] ([None] when the call stores nothing) and the
    stream afterwards. *)
Definition read_item (s : stream) : err * option T * stream :=
  match s_items s !! s_pos s with
  | None => (END_OF_STREAM, None, s)
  | Some x =>
      if decide (s_bad s = Some (s_pos s))
      then (IO_ERROR, None, s)
      else (NO_ERROR, Some x, mk_stream (s_items s) (S (s_pos s)) (s_bad s))
  end.

(** Modelled from the spec: [tpie::ami::stack<T>] is declared outside this
    header. A finite LIFO collection, listed top first. A pop can end in a
    container error: [k_bad] is the height, if any, at which the storage
    fails to deliver the item (the pop that would leave [k_bad] items). *)
Record stack : Type := mk_stack {
  k_items : list T;
  k_bad : option nat
}.

(** Modelled from the spec: [size()], the number of items. *)
Definition size (k : stack) : Z := Z.of_nat (length (k_items k)).

(** Modelled from the spec: [is_empty()]. *)
Definition is_empty (k : stack) : bool :=
  match k_items k with
  | [] => true
  | _ :: _ => false
  end.

(** Modelled from the spec: [pop(&item)] removes the top item. The result is
    the status, the pointer stored through [&item] ([None] when the call
    stores nothing) and the stack afterwards. *)
Definition pop (k : stack) : err * option T * stack :=
  match k_items k with
  | [] => (END_OF_STREAM, None, k)
  | x :: rest =>
      if decide (k_bad k = Some (length rest))
      then (IO_ERROR, None, k)
      else (NO_ERROR, Some x, mk_stack rest (k_bad k))
  end.
End containers.

Arguments stream : clear implicits.
Arguments stack : clear implicits.
End ami.

(** ** tpie::pipelining: services of the node base class *)

(** The width in bits of [stream_size_type]. The typedef is declared outside
    this header, so the width is a parameter of the development. *)
Class size_width : Type := stream_size_bits : Z.

(** The width TPIE is built with: [stream_size_type] is a 64-bit integer. *)
Definition uint64 : size_width := 64.

(** The conversion [(stream_size_type) z] to the unsigned type of that width. *)
Definition stream_size_type `{size_width} (z : Z) : Z :=
  z mod 2 ^ stream_size_bits.

(** Modelled from the spec: [node] is declared outside this header. It keeps
    the forwarded values by key, the total declared with [set_steps] and the
    progress reported with [step]. *)
Record node : Type := mk_node {
  forwarded : gmap string Z;
  steps_total : Z;
  steps_done : Z
}.

(** Modelled from the spec: [forward(key, value)] publishes a value under a
    key. *)
Definition forward (key : string) (value : Z) (b : node) : node :=
  mk_node (<[key := value]> (forwarded b)) (steps_total b) (steps_done b).

(** Modelled from the spec: [set_steps(steps)] declares the total; its
    parameter has type [stream_size_type]. *)
Definition set_steps `{size_width} (steps : Z) (b : node) : node :=
  mk_node (forwarded b) (stream_size_type steps) (steps_done b).

(** Modelled from the spec: [step(k)] reports [k] more steps done. *)
Definition step (k : Z) (b : node) : node :=
  mk_node (forwarded b) (steps_total b) (steps_done b + k).

(** The downstream of a push node: any [dest_t] with an [item_type] and a
    [push] method. *)
Class Dest (dest_t item_type : Type) : Type :=
  push : item_type -> dest_t -> dest_t.

(** A downstream that collects what it is pushed, oldest first. *)
#[export] Instance collector (T : Type) : Dest (list T) T :=
  fun x log => log ++ [x].

(** The downstream after [dest.push(x)] for each [x] of [xs], first to last. *)
Fixpoint push_all {dest_t item_type : Type} `{!Dest dest_t item_type}
    (xs : list item_type) (d : dest_t) : dest_t :=
  match xs with
  | [] => d
  | x :: xs' => push_all xs' (push x d)
  end.

(** ** bits::input_ami_stream_t *)

Module input_ami_stream_t.
Section node.
Context {dest_t item_type : Type} `{!Dest dest_t item_type} `{!size_width}.

(** The node: its base class, the stream it refers to, its downstream. *)
Record state : Type := mk {
  base : node;
  stream : ami.stream item_type;
  dest : dest_t
}.

Definition propagate (n : state) : state :=
  let b := forward "items" (stream_size_type (ami.stream_len (stream n))) (base n) in
  let b := set_steps (ami.stream_len (stream n)) b in
  mk b (stream n) (dest n).

Definition begin (n : state) : state :=
  mk (base n) (ami.seek 0 (stream n)).2 (dest n).

(** [while (stream.read_item(&item) == NO_ERROR) { dest.push( *item);
    step(1); }], one evaluation. *)
Definition go_iter (n : state) : loop state :=
  match ami.read_item (stream n) with
  | (ami.NO_ERROR, Some x, s) => Continue (mk (step 1 (base n)) s (push x (dest n)))
  | (ami.NO_ERROR, None, s) => Undef
  | (_, _, s) => Break (mk (base n) s (dest n))
  end.

Definition unread (n : state) : nat :=
  length (ami.s_items (stream n)) - ami.s_pos (stream n).

Lemma go_iter_reads_on n n' :
  go_iter n = Continue n' -> (unread n' < unread n)%nat.
Proof.
  unfold go_iter, ami.read_item, unread.
  destruct (ami.s_items (stream n) !! ami.s_pos (stream n)) as [x|] eqn:Hx;
    [|discriminate].
  apply lookup_lt_Some in Hx.
  destruct (decide _); [discriminate|].
  intros [= <-]. simpl. lia.
Qed.

Definition go (n : state) : outcome state :=
  while go_iter unread go_iter_reads_on n.

(** The phases in the order the runtime calls them on a source. *)
Definition run (n : state) : outcome state :=
  go (begin (propagate n)).
End node.

Arguments state : clear implicits.
End input_ami_stream_t.


(** ** bits::input_ami_stack_t *)

Module input_ami_stack_t.
Section node.
Context {dest_t item_type : Type} `{!Dest dest_t item_type} `{!size_width}.

(** The node: its base class, the stack it refers to, its downstream. *)
Record state : Type := mk {
  base : node;
  stack : ami.stack item_type;
  dest : dest_t
}.

Definition propagate (n : state) : state :=
  let b := forward "items" (stream_size_type (ami.size (stack n))) (base n) in
  let b := set_steps (ami.size (stack n)) b in
  mk b (stack n) (dest n).

(** [begin] is not overridden: the phase leaves the node as it is. *)
Definition begin (n : state) : state := n.

(** [while (stack.pop(&item) == NO_ERROR) { dest.push( *item); step(1); }],
    one evaluation. *)
Definition go_iter (n : state) : loop state :=
  match ami.pop (stack n) with
  | (ami.NO_ERROR, Some x, k) => Continue (mk (step 1 (base n)) k (push x (dest n)))
  | (ami.NO_ERROR, None, k) => Undef
  | (_, _, k) => Break (mk (base n) k (dest n))
  end.

Definition height (n : state) : nat := length (ami.k_items (stack n)).

Lemma go_iter_pops_off n n' :
  go_iter n = Continue n' -> (height n' < height n)%nat.
Proof.
  unfold go_iter, ami.pop, height.
  destruct (ami.k_items (stack n)) as [|x rest]; [discriminate|].
  destruct (decide _); [discriminate|].
  intros [= <-]. simpl. lia.
Qed.

Definition go (n : state) : outcome state :=
  while go_iter height go_iter_pops_off n.

(** The phases in the order the runtime calls them on a source. *)
Definition run (n : state) : outcome state :=
  go (begin (propagate n)).
End node.

Arguments state : clear implicits.
End input_ami_stack_t.

(** ** bits::pull_input_ami_stack_t *)

Module pull_input_ami_stack_t.
Section node.
Context {T : Type} `{!size_width}.

(** The node: its base class and the stack it refers to; no downstream. *)
Record state : Type := mk {
  base : node;
  stack : ami.stack T
}.

Definition propagate (n : state) : state :=
  let b := forward "items" (stream_size_type (ami.size (stack n))) (base n) in
  let b := set_steps (ami.size (stack n)) b in
  mk b (stack n).

Definition can_pull (n : state) : bool :=
  negb (ami.is_empty (stack n)).

(** [stack.pop(&item); return *item;]: the status of [pop] is dropped, and
    [item] is read whether or not [pop] has set it. *)
Definition pull (n : state) : outcome (T * state) :=
  let '(_, item, k) := ami.pop (stack n) in
  match item with
  | Some x => Returns (x, mk (base n) k)
  | None => Undefined
  end.

(** A consumer that makes [j] calls of [pull] and then one more: the result
    of that last call, the [j+1]-th of the run. *)
Fixpoint pull_after (j : nat) (n : state) : outcome (T * state) :=
  match j with
  | O => pull n
  | S j' =>
      match pull n with
      | Returns (_, n') => pull_after j' n'
      | Undefined => Undefined
      end
  end.

(** A consumer running [while (src.can_pull()) out.push_back(src.pull());],
    one evaluation. *)
Definition drain_iter (c : state * list T) : loop (state * list T) :=
  if can_pull c.1 then
    match pull c.1 with
    | Returns (x, n') => Continue (n', c.2 ++ [x])
    | Undefined => Undef
    end
  else Break c.

Definition height (c : state * list T) : nat :=
  length (ami.k_items (stack c.1)).

Lemma drain_iter_decreases c c' :
  drain_iter c = Continue c' -> (height c' < height c)%nat.
Proof.
  unfold drain_iter, pull, ami.pop, height.
  destruct (can_pull c.1); [|discriminate].
  destruct (ami.k_items (stack c.1)) as [|x rest]; [discriminate|].
  destruct (decide _); [discriminate|].
  intros [= <-]. simpl. lia.
Qed.

(** The items pulled by that consumer, in the order of the calls. *)
Definition drain (n : state) : outcome (state * list T) :=
  while drain_iter height drain_iter_decreases (n, []).
End node.

Arguments state : clear implicits.
End pull_input_ami_stack_t.

(** ** The builders *)

Module builders.

(** The node templates a factory can name: the three of this header, and
    [bits::pull_input_t], which this header uses but does not declare. *)
Inductive node_template : Set :=
| input_ami_stream_t
| input_ami_stack_t
| pull_input_ami_stack_t
| pull_input_t.

#[export] Instance node_template_eq_dec : EqDecision node_template.
Proof. solve_decision. Defined.

(** [factory] passes the downstream to the node it builds, [termfactory]
    builds a node that has none. *)
Inductive factory_kind : Set :=
| factory
| termfactory.

Inductive prefix_kind : Set :=
| pipe_begin
| pullpipe_begin.

Inductive container_kind : Set :=
| ami_stream
| ami_stack.

(** The return type of a builder: [prefix<fact<template, container<T> &> >]. *)
Record builder_type : Set := mk {
  prefix : prefix_kind;
  fact : factory_kind;
  template : node_template;
  argument : container_kind
}.

Definition input_ami_stream : builder_type :=
  mk pipe_begin factory input_ami_stream_t ami_stream.

Definition input_ami_stack : builder_type :=
  mk pipe_begin factory input_ami_stack_t ami_stack.

Definition pull_input_ami_stack : builder_type :=
  mk pullpipe_begin termfactory pull_input_t ami_stack.

(** The templates declared in [ami_glue.h]. *)
Definition declared_here (t : node_template) : bool :=
  match t with
  | input_ami_stream_t | input_ami_stack_t | pull_input_ami_stack_t => true
  | pull_input_t => false
  end.
End builders.

(** ** The scenarios of the specification *)

Module scenarios.

(** A node before its run: nothing forwarded, no steps declared or reported. *)
Definition idle : node := mk_node ∅ 0 0.

(** S1: the stream [10, 20, 30] into a collecting downstream. *)
Definition S1 : input_ami_stream_t.state (list Z) Z :=
  input_ami_stream_t.mk idle (ami.mk_stream [10; 20; 30] 0 None) [].

(** S2: the stack [7, 8, 9], top first, into a collecting downstream. *)
Definition S2 : input_ami_stack_t.state (list Z) Z :=
  input_ami_stack_t.mk idle (ami.mk_stack [7; 8; 9] None) [].

(** S3: the empty stream. *)
Definition S3 : input_ami_stream_t.state (list Z) Z :=
  input_ami_stream_t.mk idle (ami.mk_stream [] 0 None) [].

(** S4: the pull source over the stack [1, 2], top first. *)
Definition S4 : pull_input_ami_stack_t.state Z :=
  pull_input_ami_stack_t.mk idle (ami.mk_stack [1; 2] None).

(** S5: a stream of length 2 whose second read reports an error. *)
Definition S5 : input_ami_stream_t.state (list Z) Z :=
  input_ami_stream_t.mk idle (ami.mk_stream [10; 20] 0 (Some 1%nat)) [].

(** The stack of S2 when the pop of its second item reports an error. *)
Definition S5_stack : input_ami_stack_t.state (list Z) Z :=
  input_ami_stack_t.mk idle (ami.mk_stack [7; 8; 9] (Some 1%nat)) [].
End scenarios.

(** * Properties *)

(** ** The loop *)

Section while_facts.
Context {A : Type} (iter : A -> loop A) (bound : A -> nat).
Context (iter_decreases :
  forall a a', iter a = Continue a' -> (bound a' < bound a)%nat).

Local Abbreviation run_loop := (while iter bound iter_decreases).

Lemma while_step a :
  run_loop a =
  match iter a with
  | Continue a' => run_loop a'
  | Break a' => Returns a'
  | Undef => Undefined
  end.
Proof.
  assert (Hclause : forall r (Hr : iter a = r),
    while_unfold_clause_1 iter bound iter_decreases a (exist _ r Hr) =
    match r with
    | Continue a' => run_loop a'
    | Break a' => Returns a'
    | Undef => Undefined
    end) by (intros [a'|b|] Hr; reflexivity).
  rewrite while_equation_1. apply Hclause.
Qed.

(** The loop ends: it is left at a loop head reached from the first one. *)
Lemma while_ends a :
  exists m, rtc (next iter) a m /\
    match iter m with
    | Continue _ => False
    | Break b => run_loop a = Returns b
    | Undef => run_loop a = Undefined
    end.
Proof.
  remember (bound a) as k eqn:Hk. revert a Hk.
  induction k as [k IH] using lt_wf_ind. intros a ->.
  rewrite while_step.
  destruct (iter a) as [a'|b|] eqn:Hiter.
  - destruct (IH (bound a') (iter_decreases _ _ Hiter) a' eq_refl) as (m & Hreach & Hm).
    exists m. split; [|exact Hm].
    eapply rtc_l; [exact Hiter|exact Hreach].
  - exists a. split; [constructor|]. rewrite Hiter. reflexivity.
  - exists a. split; [constructor|]. rewrite Hiter. reflexivity.
Qed.

(** What holds at the first loop head and is kept by every evaluation that
    continues, holds at every loop head. *)
Lemma while_invariant (P : A -> Prop) a m :
  P a ->
  (forall x y, P x -> iter x = Continue y -> P y) ->
  rtc (next iter) a m -> P m.
Proof.
  intros Ha Hkeep Hreach.
  induction Hreach as [|x y z Hxy _ IH]; [exact Ha|].
  apply IH. exact (Hkeep _ _ Ha Hxy).
Qed.
End while_facts.

(** ** The downstream *)

Section dest_facts.
Context {dest_t item_type : Type} `{!Dest dest_t item_type}.

Lemma push_all_app (xs ys : list item_type) (d : dest_t) :
  push_all (xs ++ ys) d = push_all ys (push_all xs d).
Proof. revert d. induction xs as [|x xs IH]; intros d; simpl; [reflexivity|apply IH]. Qed.

Lemma push_all_snoc (xs : list item_type) (x : item_type) (d : dest_t) :
  push_all (xs ++ [x]) d = push x (push_all xs d).
Proof. apply push_all_app. Qed.
End dest_facts.

Lemma push_all_collector {T : Type} (xs log : list T) :
  push_all xs log = log ++ xs.
Proof.
  revert log. induction xs as [|x xs IH]; intros log; simpl.
  - symmetry. apply app_nil_r.
  - rewrite IH. unfold push, collector. rewrite <- app_assoc. reflexivity.
Qed.

(** A prefix of [l] that ends where [l] ends is [l]. *)
Lemma prefix_full {T : Type} (xs l : list T) :
  xs `prefix_of` l -> l !! length xs = None -> xs = l.
Proof.
  intros [k ->] Hend.
  rewrite lookup_app_r, Nat.sub_diag in Hend by lia.
  destruct k; [|discriminate]. symmetry. apply app_nil_r.
Qed.

(** A prefix of [l] grows by the item that [l] has next. *)
Lemma prefix_snoc {T : Type} (xs l : list T) (x : T) :
  xs `prefix_of` l -> l !! length xs = Some x -> (xs ++ [x]) `prefix_of` l.
Proof.
  intros [k ->] Hnext.
  rewrite lookup_app_r, Nat.sub_diag in Hnext by lia.
  destruct k as [|y k]; simplify_eq/=.
  exists k. rewrite <- app_assoc. reflexivity.
Qed.

(** ** The push source over a stream *)

Section stream_facts.
Context {dest_t item_type : Type} `{!Dest dest_t item_type} `{!size_width}.
Import input_ami_stream_t.

Implicit Types n m b : state dest_t item_type.

(** The three ways one evaluation of the loop of [go] can end. *)
Lemma stream_go_iter_cases m :
  match go_iter m with
  | Continue y =>
      exists x,
        ami.s_items (stream m) !! ami.s_pos (stream m) = Some x /\
        ami.s_bad (stream m) <> Some (ami.s_pos (stream m)) /\
        y = mk (step 1 (base m))
               (ami.mk_stream (ami.s_items (stream m)) (S (ami.s_pos (stream m)))
                              (ami.s_bad (stream m)))
               (push x (dest m))
  | Break b =>
      b = m /\ (ami.read_item (stream m)).1.1 <> ami.NO_ERROR /\
      (ami.s_items (stream m) !! ami.s_pos (stream m) = None \/
       ami.s_bad (stream m) = Some (ami.s_pos (stream m)))
  | Undef => False
  end.
Proof.
  destruct m as [bs [items pos bad] d]. unfold go_iter, ami.read_item. simpl.
  destruct (items !! pos) as [x|] eqn:Hx; simpl.
  - destruct (decide (bad = Some pos)) as [Hbad|Hbad]; simpl.
    + split; [reflexivity|]. split; [discriminate|]. right. exact Hbad.
    + exists x. split; [reflexivity|]. split; [exact Hbad|reflexivity].
  - split; [reflexivity|]. split; [discriminate|]. left. reflexivity.
Qed.

(** Every loop head of [go] is the first one moved past a run [xs] of the
    items under the cursor: [xs] pushed, one step reported for each. *)
Lemma stream_go_reaches n m :
  rtc (next go_iter) n m ->
  exists xs,
    xs `prefix_of` drop (ami.s_pos (stream n)) (ami.s_items (stream n)) /\
    m = mk (mk_node (forwarded (base n)) (steps_total (base n))
                    (steps_done (base n) + Z.of_nat (length xs)))
           (ami.mk_stream (ami.s_items (stream n))
                          (ami.s_pos (stream n) + length xs) (ami.s_bad (stream n)))
           (push_all xs (dest n)).
Proof.
  intros Hreach. pattern m.
  eapply (while_invariant go_iter); [| |exact Hreach]; simpl.
  - exists []. split; [apply prefix_nil|].
    destruct n as [[fw tot dn] [items pos bad] d]. simpl.
    rewrite Z.add_0_r, Nat.add_0_r. reflexivity.
  - intros x y (xs & Hpre & ->) Hxy.
    pose proof (stream_go_iter_cases
      (mk (mk_node (forwarded (base n)) (steps_total (base n))
                   (steps_done (base n) + Z.of_nat (length xs)))
          (ami.mk_stream (ami.s_items (stream n))
                         (ami.s_pos (stream n) + length xs) (ami.s_bad (stream n)))
          (push_all xs (dest n)))) as Hcase.
    rewrite Hxy in Hcase. simpl in Hcase.
    destruct Hcase as (v & Hv & _ & ->).
    exists (xs ++ [v]). split.
    + apply prefix_snoc; [exact Hpre|]. rewrite lookup_drop. exact Hv.
    + rewrite push_all_snoc, length_app. simpl. unfold step. simpl.
      f_equal; [f_equal; lia|f_equal; lia].
Qed.

(** [go] returns, at the first read whose status is not [NO_ERROR]: the end
    of the data or a failing position. *)
Lemma stream_go_spec n :
  exists xs,
    xs `prefix_of` drop (ami.s_pos (stream n)) (ami.s_items (stream n)) /\
    (ami.s_items (stream n) !! (ami.s_pos (stream n) + length xs)%nat = None \/
     ami.s_bad (stream n) = Some (ami.s_pos (stream n) + length xs)%nat) /\
    go n =
    Returns (mk (mk_node (forwarded (base n)) (steps_total (base n))
                         (steps_done (base n) + Z.of_nat (length xs)))
                (ami.mk_stream (ami.s_items (stream n))
                               (ami.s_pos (stream n) + length xs) (ami.s_bad (stream n)))
                (push_all xs (dest n))).
Proof.
  destruct (while_ends go_iter unread go_iter_reads_on n) as (m & Hreach & Hend).
  destruct (stream_go_reaches _ _ Hreach) as (xs & Hpre & Hm).
  exists xs. split; [exact Hpre|].
  pose proof (stream_go_iter_cases m) as Hcase.
  destruct (go_iter m) as [y|b|]; [contradiction| |contradiction].
  destruct Hcase as (-> & _ & Hstop). subst m. simpl in Hstop.
  split; [exact Hstop|exact Hend].
Qed.

(** On a stream without a failing position [go] reads up to the end. *)
Lemma stream_go_nominal n :
  ami.s_bad (stream n) = None ->
  go n =
  Returns (mk (mk_node (forwarded (base n)) (steps_total (base n))
                 (steps_done (base n) +
                  Z.of_nat (length (drop (ami.s_pos (stream n)) (ami.s_items (stream n))))))
              (ami.mk_stream (ami.s_items (stream n))
                 (ami.s_pos (stream n) +
                  length (drop (ami.s_pos (stream n)) (ami.s_items (stream n))))
                 None)
              (push_all (drop (ami.s_pos (stream n)) (ami.s_items (stream n))) (dest n))).
Proof.
  intros Hbad. destruct (stream_go_spec n) as (xs & Hpre & Hstop & Hgo).
  rewrite Hbad in Hstop, Hgo. destruct Hstop as [Hstop|?]; [|discriminate].
  rewrite <- lookup_drop in Hstop.
  rewrite <- (prefix_full _ _ Hpre Hstop). exact Hgo.
Qed.

Lemma stream_begin n :
  begin n = mk (base n) (ami.mk_stream (ami.s_items (stream n)) 0 (ami.s_bad (stream n)))
               (dest n).
Proof.
  unfold begin, ami.seek.
  destruct (decide _) as [|Hneg]; [reflexivity|]. exfalso. apply Hneg. lia.
Qed.

(** From the first position of a stream without a failing position, [go]
    pushes every item and leaves the cursor behind the last one. *)
Lemma stream_begin_go_nominal n :
  ami.s_bad (stream n) = None ->
  go (begin n) =
  Returns (mk (mk_node (forwarded (base n)) (steps_total (base n))
                 (steps_done (base n) + ami.stream_len (stream n)))
              (ami.mk_stream (ami.s_items (stream n)) (length (ami.s_items (stream n))) None)
              (push_all (ami.s_items (stream n)) (dest n))).
Proof.
  intros Hbad. rewrite stream_begin, stream_go_nominal by exact Hbad.
  simpl. rewrite drop_0. reflexivity.
Qed.
End stream_facts.

(** A length that fits [stream_size_type] is converted to itself. *)
Lemma stream_size_type_fits `{!size_width} (l : nat) :
  Z.of_nat l < 2 ^ stream_size_bits -> stream_size_type (Z.of_nat l) = Z.of_nat l.
Proof. intros Hfit. unfold stream_size_type. apply Z.mod_small. lia. Qed.

(** ** The push source over a stack *)

Section stack_facts.
Context {dest_t item_type : Type} `{!Dest dest_t item_type} `{!size_width}.
Import input_ami_stack_t.

Implicit Types n m b : state dest_t item_type.

(** The three ways one evaluation of the loop of [go] can end. *)
Lemma stack_go_iter_cases m :
  match go_iter m with
  | Continue y =>
      exists x rest,
        ami.k_items (stack m) = x :: rest /\
        ami.k_bad (stack m) <> Some (length rest) /\
        y = mk (step 1 (base m)) (ami.mk_stack rest (ami.k_bad (stack m)))
               (push x (dest m))
  | Break b =>
      b = m /\ (ami.pop (stack m)).1.1 <> ami.NO_ERROR /\
      (ami.k_items (stack m) = [] \/
       exists x rest, ami.k_items (stack m) = x :: rest /\
                      ami.k_bad (stack m) = Some (length rest))
  | Undef => False
  end.
Proof.
  destruct m as [bs [items bad] d]. unfold go_iter, ami.pop. simpl.
  destruct items as [|x rest]; simpl.
  - split; [reflexivity|]. split; [discriminate|]. left. reflexivity.
  - destruct (decide (bad = Some (length rest))) as [Hbad|Hbad]; simpl.
    + split; [reflexivity|]. split; [discriminate|]. right. eauto.
    + exists x, rest. split; [reflexivity|]. split; [exact Hbad|reflexivity].
Qed.

(** Every loop head of [go] is the first one with a run [xs] of items taken
    off the top: [xs] pushed, one step reported for each. *)
Lemma stack_go_reaches n m :
  rtc (next go_iter) n m ->
  exists xs rest,
    ami.k_items (stack n) = xs ++ rest /\
    m = mk (mk_node (forwarded (base n)) (steps_total (base n))
                    (steps_done (base n) + Z.of_nat (length xs)))
           (ami.mk_stack rest (ami.k_bad (stack n)))
           (push_all xs (dest n)).
Proof.
  intros Hreach. pattern m.
  eapply (while_invariant go_iter); [| |exact Hreach]; simpl.
  - exists [], (ami.k_items (stack n)). split; [reflexivity|].
    destruct n as [[fw tot dn] [items bad] d]. simpl.
    rewrite Z.add_0_r. reflexivity.
  - intros x y (xs & rest & Hsplit & ->) Hxy.
    pose proof (stack_go_iter_cases
      (mk (mk_node (forwarded (base n)) (steps_total (base n))
                   (steps_done (base n) + Z.of_nat (length xs)))
          (ami.mk_stack rest (ami.k_bad (stack n)))
          (push_all xs (dest n)))) as Hcase.
    rewrite Hxy in Hcase. simpl in Hcase.
    destruct Hcase as (v & rest' & -> & _ & ->).
    exists (xs ++ [v]), rest'. split.
    + rewrite Hsplit, <- app_assoc. reflexivity.
    + rewrite push_all_snoc, length_app. simpl. unfold step. simpl.
      f_equal. f_equal. lia.
Qed.

(** [go] returns, at the first pop whose status is not [NO_ERROR]: the stack
    is empty, or the item on top is at the failing height. *)
Lemma stack_go_spec n :
  exists xs rest,
    ami.k_items (stack n) = xs ++ rest /\
    (rest = [] \/
     exists x rest', rest = x :: rest' /\ ami.k_bad (stack n) = Some (length rest')) /\
    go n =
    Returns (mk (mk_node (forwarded (base n)) (steps_total (base n))
                         (steps_done (base n) + Z.of_nat (length xs)))
                (ami.mk_stack rest (ami.k_bad (stack n)))
                (push_all xs (dest n))).
Proof.
  destruct (while_ends go_iter height go_iter_pops_off n) as (m & Hreach & Hend).
  destruct (stack_go_reaches _ _ Hreach) as (xs & rest & Hsplit & Hm).
  exists xs, rest. split; [exact Hsplit|].
  pose proof (stack_go_iter_cases m) as Hcase.
  destruct (go_iter m) as [y|b|]; [contradiction| |contradiction].
  destruct Hcase as (-> & _ & Hstop). subst m. simpl in Hstop.
  split; [exact Hstop|exact Hend].
Qed.

(** On a stack without a failing height [go] pops down to the bottom. *)
Lemma stack_go_nominal n :
  ami.k_bad (stack n) = None ->
  go n =
  Returns (mk (mk_node (forwarded (base n)) (steps_total (base n))
                 (steps_done (base n) + Z.of_nat (length (ami.k_items (stack n)))))
              (ami.mk_stack [] None)
              (push_all (ami.k_items (stack n)) (dest n))).
Proof.
  intros Hbad. destruct (stack_go_spec n) as (xs & rest & Hsplit & Hstop & Hgo).
  rewrite Hbad in Hstop, Hgo.
  destruct Hstop as [->|(x & rest' & _ & ?)]; [|discriminate].
  rewrite app_nil_r in Hsplit. rewrite Hsplit. exact Hgo.
Qed.
End stack_facts.

(** ** The pull source over a stack *)

Section pull_facts.
Context {T : Type} `{!size_width}.
Import pull_input_ami_stack_t.

Implicit Types n m : state T.

(** [pull] returns the top item when [pop] delivers it, and reads an unset
    pointer in every other case. *)
Lemma pull_cases n :
  match pull n with
  | Returns (x, n') =>
      exists rest,
        ami.k_items (stack n) = x :: rest /\
        ami.k_bad (stack n) <> Some (length rest) /\
        (ami.pop (stack n)).1.1 = ami.NO_ERROR /\
        n' = mk (base n) (ami.mk_stack rest (ami.k_bad (stack n)))
  | Undefined =>
      (ami.pop (stack n)).1.1 <> ami.NO_ERROR /\
      (ami.k_items (stack n) = [] \/
       exists x rest, ami.k_items (stack n) = x :: rest /\
                      ami.k_bad (stack n) = Some (length rest))
  end.
Proof.
  destruct n as [bs [items bad]]. unfold pull, ami.pop. simpl.
  destruct items as [|x rest]; simpl.
  - split; [discriminate|]. left. reflexivity.
  - destruct (decide (bad = Some (length rest))) as [Hbad|Hbad]; simpl.
    + split; [discriminate|]. right. eauto.
    + exists rest. auto.
Qed.

Lemma can_pull_nonempty n :
  can_pull n = true <-> ami.k_items (stack n) <> [].
Proof.
  unfold can_pull, ami.is_empty.
  destruct (ami.k_items (stack n)); simpl; split; congruence.
Qed.

(** The [j+1]-th call of [pull], when it returns, returns the item [j] places
    below the top and leaves what was below that item. *)
Lemma pull_after_returns j n x n' :
  pull_after j n = Returns (x, n') ->
  ami.k_items (stack n) !! j = Some x /\
  n' = mk (base n) (ami.mk_stack (drop (S j) (ami.k_items (stack n)))
                                 (ami.k_bad (stack n))).
Proof.
  revert n. induction j as [|j IH]; intros n; simpl;
    pose proof (pull_cases n) as Hcase;
    destruct (pull n) as [[y m]|]; try discriminate;
    destruct Hcase as (rest & Hitems & _ & _ & ->).
  - intros [= <- <-]. rewrite Hitems. simpl. rewrite drop_0. auto.
  - intros Hrest. apply IH in Hrest. simpl in Hrest.
    rewrite Hitems. simpl. exact Hrest.
Qed.

(** On a stack without a failing height the first [length] calls return. *)
Lemma pull_after_nominal j n :
  ami.k_bad (stack n) = None ->
  (j < length (ami.k_items (stack n)))%nat ->
  exists x n', pull_after j n = Returns (x, n').
Proof.
  revert n. induction j as [|j IH]; intros n Hbad Hlen; simpl;
    pose proof (pull_cases n) as Hcase;
    destruct (pull n) as [[y m]|].
  - eauto.
  - destruct Hcase as (_ & [Hnil|(x & rest & _ & Hfail)]).
    + rewrite Hnil in Hlen. simpl in Hlen. lia.
    + congruence.
  - destruct Hcase as (rest & Hitems & _ & _ & ->).
    apply IH; simpl; [exact Hbad|]. rewrite Hitems in Hlen. simpl in Hlen. lia.
  - destruct Hcase as (_ & [Hnil|(x & rest & _ & Hfail)]).
    + rewrite Hnil in Hlen. simpl in Hlen. lia.
    + congruence.
Qed.

(** Every loop head of the draining consumer has pulled a run [xs] off the
    top of the stack. *)
Lemma drain_reaches n c :
  rtc (next drain_iter) (n, []) c ->
  exists rest,
    ami.k_items (stack n) = c.2 ++ rest /\
    c.1 = mk (base n) (ami.mk_stack rest (ami.k_bad (stack n))).
Proof.
  intros Hreach. pattern c.
  eapply (while_invariant drain_iter); [| |exact Hreach]; simpl.
  - exists (ami.k_items (stack n)). split; [reflexivity|].
    destruct n as [bs [items bad]]. reflexivity.
  - intros [m acc] y (rest & Hsplit & Hm). simpl in Hsplit, Hm. subst m.
    unfold drain_iter. cbn [fst snd].
    destruct (can_pull _); [|discriminate].
    pose proof (pull_cases (mk (base n) (ami.mk_stack rest (ami.k_bad (stack n)))))
      as Hcase.
    destruct (pull _) as [[v m]|]; [|discriminate].
    simpl in Hcase. destruct Hcase as (rest' & -> & _ & _ & ->).
    intros [= <-]. simpl. exists rest'. split; [|reflexivity].
    rewrite Hsplit, <- app_assoc. reflexivity.
Qed.

(** On a stack without a failing height the consumer pulls every item, top
    first, and stops on the empty stack. *)
Lemma drain_nominal n :
  ami.k_bad (stack n) = None ->
  drain n = Returns (mk (base n) (ami.mk_stack [] None), ami.k_items (stack n)).
Proof.
  intros Hbad.
  destruct (while_ends drain_iter height drain_iter_decreases (n, []))
    as ([m acc] & Hreach & Hend).
  destruct (drain_reaches _ _ Hreach) as (rest & Hsplit & Hm).
  simpl in Hsplit, Hm. subst m. rewrite Hbad in Hend.
  unfold drain_iter in Hend. simpl in Hend.
  unfold can_pull, pull, ami.is_empty, ami.pop in Hend. simpl in Hend.
  destruct rest as [|x rest]; simpl in Hend.
  - rewrite app_nil_r in Hsplit. rewrite Hsplit. exact Hend.
  - contradiction.
Qed.
End pull_facts.

(** ** The scenarios, run *)

Example scenario_S1 :
  exists b,
    @input_ami_stream_t.run _ _ _ uint64 scenarios.S1 = Returns b /\
    input_ami_stream_t.dest b = [10; 20; 30] /\
    forwarded (input_ami_stream_t.base b) !! "items" = Some 3 /\
    steps_total (input_ami_stream_t.base b) = 3 /\
    steps_done (input_ami_stream_t.base b) = 3.
Proof. eexists. split; [vm_compute; reflexivity|]. repeat split. Qed.

Example scenario_S2 :
  exists b,
    @input_ami_stack_t.run _ _ _ uint64 scenarios.S2 = Returns b /\
    input_ami_stack_t.dest b = [7; 8; 9] /\
    ami.size (input_ami_stack_t.stack b) = 0.
Proof. eexists. split; [vm_compute; reflexivity|]. repeat split. Qed.

Example scenario_S3 :
  exists b,
    @input_ami_stream_t.run _ _ _ uint64 scenarios.S3 = Returns b /\
    input_ami_stream_t.dest b = [] /\
    forwarded (input_ami_stream_t.base b) !! "items" = Some 0 /\
    input_ami_stream_t.go_iter
      (input_ami_stream_t.begin (@input_ami_stream_t.propagate _ _ uint64 scenarios.S3))
    = Break (input_ami_stream_t.begin (@input_ami_stream_t.propagate _ _ uint64 scenarios.S3)).
Proof. eexists. split; [vm_compute; reflexivity|]. repeat split. Qed.

Example scenario_S4 :
  exists n,
    pull_input_ami_stack_t.drain scenarios.S4 = Returns (n, [1; 2]) /\
    pull_input_ami_stack_t.can_pull n = false /\
    ami.is_empty (pull_input_ami_stack_t.stack n) = true.
Proof. eexists. split; [vm_compute; reflexivity|]. repeat split. Qed.

(** * The properties of the glue layer *)

(** C1 (count fidelity). Take either push source over a container that
    reports no error and whose length fits [stream_size_type], with a
    downstream that collects its pushes. A run (propagate, begin, go) returns;
    the pushes made during [go] number exactly the length [N] of the
    container, which is also the value forwarded under ["items"] and the total
    declared with [set_steps]. *)
Theorem count_fidelity {T : Type} `{!size_width}
    (ns : input_ami_stream_t.state (list T) T)
    (nk : input_ami_stack_t.state (list T) T) :
  ami.s_bad (input_ami_stream_t.stream ns) = None ->
  ami.k_bad (input_ami_stack_t.stack nk) = None ->
  ami.stream_len (input_ami_stream_t.stream ns) < 2 ^ stream_size_bits ->
  ami.size (input_ami_stack_t.stack nk) < 2 ^ stream_size_bits ->
  (exists b xs,
     input_ami_stream_t.run ns = Returns b /\
     input_ami_stream_t.dest b = input_ami_stream_t.dest ns ++ xs /\
     Z.of_nat (length xs) = ami.stream_len (input_ami_stream_t.stream ns) /\
     forwarded (input_ami_stream_t.base b) !! "items" = Some (Z.of_nat (length xs)) /\
     steps_total (input_ami_stream_t.base b) = Z.of_nat (length xs)) /\
  (exists b xs,
     input_ami_stack_t.run nk = Returns b /\
     input_ami_stack_t.dest b = input_ami_stack_t.dest nk ++ xs /\
     Z.of_nat (length xs) = ami.size (input_ami_stack_t.stack nk) /\
     forwarded (input_ami_stack_t.base b) !! "items" = Some (Z.of_nat (length xs)) /\
     steps_total (input_ami_stack_t.base b) = Z.of_nat (length xs)).
Proof.
  intros Hs Hk Hfits Hfitk. split.
  - unfold input_ami_stream_t.run.
    rewrite stream_begin_go_nominal by exact Hs.
    eexists _, (ami.s_items (input_ami_stream_t.stream ns)).
    split; [reflexivity|]. simpl. unfold ami.stream_len in *.
    rewrite push_all_collector, lookup_insert_eq.
    unfold set_steps. simpl. rewrite stream_size_type_fits by exact Hfits.
    auto.
  - unfold input_ami_stack_t.run, input_ami_stack_t.begin.
    rewrite stack_go_nominal by exact Hk.
    eexists _, (ami.k_items (input_ami_stack_t.stack nk)).
    split; [reflexivity|]. simpl. unfold ami.size in *.
    rewrite push_all_collector, lookup_insert_eq.
    unfold set_steps. simpl. rewrite stream_size_type_fits by exact Hfitk.
    auto.
Qed.

(** C1 at the stream of scenario S1 and the stack of scenario S2. *)
Lemma count_fidelity_witness :
  ami.s_bad (input_ami_stream_t.stream scenarios.S1) = None /\
  ami.k_bad (input_ami_stack_t.stack scenarios.S2) = None /\
  ami.stream_len (input_ami_stream_t.stream scenarios.S1) < 2 ^ 64 /\
  ami.size (input_ami_stack_t.stack scenarios.S2) < 2 ^ 64 /\
  (exists b xs,
     @input_ami_stream_t.run _ _ _ uint64 scenarios.S1 = Returns b /\
     input_ami_stream_t.dest b = [] ++ xs /\
     Z.of_nat (length xs) = 3 /\
     forwarded (input_ami_stream_t.base b) !! "items" = Some (Z.of_nat (length xs)) /\
     steps_total (input_ami_stream_t.base b) = Z.of_nat (length xs)) /\
  (exists b xs,
     @input_ami_stack_t.run _ _ _ uint64 scenarios.S2 = Returns b /\
     input_ami_stack_t.dest b = [] ++ xs /\
     Z.of_nat (length xs) = 3 /\
     forwarded (input_ami_stack_t.base b) !! "items" = Some (Z.of_nat (length xs)) /\
     steps_total (input_ami_stack_t.base b) = Z.of_nat (length xs)).
Proof.
  do 4 (split; [reflexivity|]).
  apply (@count_fidelity Z uint64 scenarios.S1 scenarios.S2); reflexivity.
Defined.

(** C2 (order fidelity, stream). On a stream [a0, ..., a_{N-1}] that reports
    no error, wherever its cursor stands: after [begin] has sought position 0,
    [go] returns and has pushed a0, ..., a_{N-1} into the downstream, in that
    order and nothing else. *)
Theorem stream_order_fidelity {dest_t item_type : Type} `{!Dest dest_t item_type}
    (n : input_ami_stream_t.state dest_t item_type) :
  ami.s_bad (input_ami_stream_t.stream n) = None ->
  exists b,
    input_ami_stream_t.go (input_ami_stream_t.begin n) = Returns b /\
    input_ami_stream_t.dest b =
      push_all (ami.s_items (input_ami_stream_t.stream n)) (input_ami_stream_t.dest n).
Proof.
  intros Hbad. rewrite stream_begin_go_nominal by exact Hbad.
  eexists. split; reflexivity.
Qed.

(** C2 at scenario S1: the collecting downstream holds [10, 20, 30]. *)
Lemma stream_order_fidelity_witness :
  ami.s_bad (input_ami_stream_t.stream scenarios.S1) = None /\
  exists b,
    input_ami_stream_t.go (input_ami_stream_t.begin scenarios.S1) = Returns b /\
    input_ami_stream_t.dest b = push_all [10; 20; 30] [].
Proof.
  split; [reflexivity|].
  apply (stream_order_fidelity scenarios.S1). reflexivity.
Defined.

(** C3 (order fidelity, stack). On a stack that reports no error and holds
    t0, ..., t_{N-1} from the top down, [go] returns, has pushed t0, ...,
    t_{N-1} into the downstream in that order, and leaves the stack empty. *)
Theorem stack_order_fidelity {dest_t item_type : Type} `{!Dest dest_t item_type}
    (n : input_ami_stack_t.state dest_t item_type) :
  ami.k_bad (input_ami_stack_t.stack n) = None ->
  exists b,
    input_ami_stack_t.go n = Returns b /\
    input_ami_stack_t.dest b =
      push_all (ami.k_items (input_ami_stack_t.stack n)) (input_ami_stack_t.dest n) /\
    ami.k_items (input_ami_stack_t.stack b) = [] /\
    ami.is_empty (input_ami_stack_t.stack b) = true /\
    ami.size (input_ami_stack_t.stack b) = 0.
Proof.
  intros Hbad. rewrite stack_go_nominal by exact Hbad.
  eexists. split; [reflexivity|]. auto.
Qed.

(** C3 at scenario S2: the collecting downstream holds [7, 8, 9]. *)
Lemma stack_order_fidelity_witness :
  ami.k_bad (input_ami_stack_t.stack scenarios.S2) = None /\
  exists b,
    input_ami_stack_t.go scenarios.S2 = Returns b /\
    input_ami_stack_t.dest b = push_all [7; 8; 9] [] /\
    ami.k_items (input_ami_stack_t.stack b) = [] /\
    ami.is_empty (input_ami_stack_t.stack b) = true /\
    ami.size (input_ami_stack_t.stack b) = 0.
Proof.
  split; [reflexivity|].
  apply (stack_order_fidelity scenarios.S2). reflexivity.
Defined.

(** C8 (the stream is left as it was). After a run (propagate, begin, go) of
    the push source over a stream that reports no error, the stream has the
    items and the length it had before, and its cursor stands at the end: the
    next read reports the end of the stream. The items are those of before
    after every run, also one that a container error has ended. *)
Theorem stream_not_mutated {dest_t item_type : Type} `{!Dest dest_t item_type}
    `{!size_width} (n : input_ami_stream_t.state dest_t item_type) :
  ami.s_bad (input_ami_stream_t.stream n) = None ->
  exists b,
    input_ami_stream_t.run n = Returns b /\
    ami.s_items (input_ami_stream_t.stream b) = ami.s_items (input_ami_stream_t.stream n) /\
    ami.stream_len (input_ami_stream_t.stream b) = ami.stream_len (input_ami_stream_t.stream n) /\
    Z.of_nat (ami.s_pos (input_ami_stream_t.stream b)) =
      ami.stream_len (input_ami_stream_t.stream b) /\
    (ami.read_item (input_ami_stream_t.stream b)).1.1 = ami.END_OF_STREAM /\
    (forall m : input_ami_stream_t.state dest_t item_type,
       exists b',
         input_ami_stream_t.run m = Returns b' /\
         ami.s_items (input_ami_stream_t.stream b') =
           ami.s_items (input_ami_stream_t.stream m)).
Proof.
  intros Hbad. unfold input_ami_stream_t.run.
  rewrite stream_begin_go_nominal by exact Hbad.
  eexists. split; [reflexivity|]. simpl.
  split; [reflexivity|]. split; [reflexivity|]. split; [reflexivity|]. split.
  - unfold ami.read_item. simpl.
    rewrite (lookup_ge_None_2 _ _ (Nat.le_refl _)). reflexivity.
  - intros m.
    destruct (stream_go_spec (input_ami_stream_t.begin (input_ami_stream_t.propagate m)))
      as (xs & _ & _ & Hgo).
    rewrite Hgo. eexists. split; [reflexivity|].
    rewrite stream_begin. reflexivity.
Qed.

(** C8 at scenario S1. *)
Lemma stream_not_mutated_witness :
  ami.s_bad (input_ami_stream_t.stream scenarios.S1) = None /\
  exists b,
    @input_ami_stream_t.run _ _ _ uint64 scenarios.S1 = Returns b /\
    ami.s_items (input_ami_stream_t.stream b) = [10; 20; 30] /\
    ami.stream_len (input_ami_stream_t.stream b) = 3 /\
    Z.of_nat (ami.s_pos (input_ami_stream_t.stream b)) =
      ami.stream_len (input_ami_stream_t.stream b) /\
    (ami.read_item (input_ami_stream_t.stream b)).1.1 = ami.END_OF_STREAM /\
    (forall m : input_ami_stream_t.state (list Z) Z,
       exists b',
         @input_ami_stream_t.run _ _ _ uint64 m = Returns b' /\
         ami.s_items (input_ami_stream_t.stream b') =
           ami.s_items (input_ami_stream_t.stream m)).
Proof.
  split; [reflexivity|].
  apply (@stream_not_mutated _ _ _ uint64 scenarios.S1). reflexivity.
Defined.



(** C5 (pull duality). On a stack that reports no error, the consumer that
    calls [pull] for as long as [can_pull] holds returns, and the items it has
    pulled, in the order of the calls, are the items the push source over the
    same stack pushes into its downstream, in the order of the pushes. *)
Theorem pull_duality {T : Type} (k : ami.stack T) (bp bk : node) :
  ami.k_bad k = None ->
  exists np xs,
    pull_input_ami_stack_t.drain (pull_input_ami_stack_t.mk bp k) = Returns (np, xs) /\
    (exists b,
       input_ami_stack_t.go (input_ami_stack_t.mk bk k ([] : list T)) = Returns b /\
       input_ami_stack_t.dest b = xs) /\
    (forall (dest_t : Type) (D : Dest dest_t T) (d : dest_t),
       exists b,
         input_ami_stack_t.go (input_ami_stack_t.mk bk k d) = Returns b /\
         input_ami_stack_t.dest b = push_all xs d).
Proof.
  intros Hbad.
  exists (pull_input_ami_stack_t.mk bp (ami.mk_stack [] None)), (ami.k_items k).
  split; [apply (drain_nominal (pull_input_ami_stack_t.mk bp k)); exact Hbad|].
  split.
  - rewrite stack_go_nominal by exact Hbad. eexists. split; [reflexivity|].
    simpl. apply push_all_collector.
  - intros dest_t D d. rewrite stack_go_nominal by exact Hbad.
    eexists. split; reflexivity.
Qed.

(** C5 at the stack [1, 2] of scenario S4. *)
Lemma pull_duality_witness :
  ami.k_bad (ami.mk_stack [1; 2] None) = None /\
  exists np xs,
    pull_input_ami_stack_t.drain scenarios.S4 = Returns (np, xs) /\
    (exists b,
       input_ami_stack_t.go
         (input_ami_stack_t.mk scenarios.idle (ami.mk_stack [1; 2] None) ([] : list Z))
       = Returns b /\
       input_ami_stack_t.dest b = xs) /\
    (forall (dest_t : Type) (D : Dest dest_t Z) (d : dest_t),
       exists b,
         input_ami_stack_t.go
           (input_ami_stack_t.mk scenarios.idle (ami.mk_stack [1; 2] None) d)
         = Returns b /\
         input_ami_stack_t.dest b = push_all xs d).
Proof.
  split; [reflexivity|].
  apply (pull_duality (ami.mk_stack [1; 2] None) scenarios.idle scenarios.idle).
  reflexivity.
Defined.

(** C6 (the pull source is LIFO). For k >= 1, when the k-th call of [pull] in
    a row returns, it returns the item that was k-1 places below the top when
    the calls began. In every state of the node, [can_pull] holds exactly when
    the stack is not empty; and on a stack that reports no error, each of the
    first [size] calls of [pull] returns. *)
Theorem pull_is_lifo {T : Type} (n : pull_input_ami_stack_t.state T)
    (k : nat) (x : T) (n' : pull_input_ami_stack_t.state T) :
  (1 <= k)%nat ->
  pull_input_ami_stack_t.pull_after (k - 1) n = Returns (x, n') ->
  ami.k_items (pull_input_ami_stack_t.stack n) !! (k - 1)%nat = Some x /\
  (forall m : pull_input_ami_stack_t.state T,
     pull_input_ami_stack_t.can_pull m = true <->
     ami.k_items (pull_input_ami_stack_t.stack m) <> []) /\
  (forall m : pull_input_ami_stack_t.state T,
     pull_input_ami_stack_t.can_pull m = true <->
     0 < ami.size (pull_input_ami_stack_t.stack m)) /\
  (forall m : pull_input_ami_stack_t.state T,
     ami.k_bad (pull_input_ami_stack_t.stack m) = None ->
     forall j, (1 <= j <= length (ami.k_items (pull_input_ami_stack_t.stack m)))%nat ->
       exists y m', pull_input_ami_stack_t.pull_after (j - 1) m = Returns (y, m')).
Proof.
  intros Hk Hret.
  split; [exact (proj1 (pull_after_returns _ _ _ _ Hret))|].
  split; [intros m; apply can_pull_nonempty|]. split.
  - intros m. rewrite can_pull_nonempty. unfold ami.size.
    destruct (ami.k_items (pull_input_ami_stack_t.stack m)); simpl; split;
      (congruence || lia).
  - intros m Hbad j Hj. apply pull_after_nominal; [exact Hbad|lia].
Qed.

(** C6 at scenario S4: the second call of [pull] returns 2, the item one
    place below the top of the stack [1, 2]. *)
Lemma pull_is_lifo_witness :
  (1 <= 2)%nat /\
  pull_input_ami_stack_t.pull_after (2 - 1) scenarios.S4 =
    Returns (2, pull_input_ami_stack_t.mk scenarios.idle (ami.mk_stack [] None)) /\
  [1; 2] !! (2 - 1)%nat = Some 2 /\
  (forall m : pull_input_ami_stack_t.state Z,
     pull_input_ami_stack_t.can_pull m = true <->
     ami.k_items (pull_input_ami_stack_t.stack m) <> []) /\
  (forall m : pull_input_ami_stack_t.state Z,
     pull_input_ami_stack_t.can_pull m = true <->
     0 < ami.size (pull_input_ami_stack_t.stack m)) /\
  (forall m : pull_input_ami_stack_t.state Z,
     ami.k_bad (pull_input_ami_stack_t.stack m) = None ->
     forall j, (1 <= j <= length (ami.k_items (pull_input_ami_stack_t.stack m)))%nat ->
       exists y m', pull_input_ami_stack_t.pull_after (j - 1) m = Returns (y, m')).
Proof.
  split; [lia|]. split; [reflexivity|].
  apply (pull_is_lifo scenarios.S4 2 2
           (pull_input_ami_stack_t.mk scenarios.idle (ami.mk_stack [] None)));
    [lia|reflexivity].
Defined.

(** C9 (progress stays within the total). Take either push source over a
    container whose length [N] fits [stream_size_type], and let [go] start
    after propagate and begin. At every loop head of [go], and in the state
    [go] returns, the total declared with [set_steps] is [N] and the sum of the
    steps reported since the start of the run lies between 0 and [N]. This
    holds whether or not the container reports an error. *)
Theorem steps_within_total {dest_t item_type : Type} `{!Dest dest_t item_type}
    `{!size_width}
    (ns : input_ami_stream_t.state dest_t item_type)
    (nk : input_ami_stack_t.state dest_t item_type) :
  ami.stream_len (input_ami_stream_t.stream ns) < 2 ^ stream_size_bits ->
  ami.size (input_ami_stack_t.stack nk) < 2 ^ stream_size_bits ->
  ((forall m,
      rtc (next input_ami_stream_t.go_iter)
          (input_ami_stream_t.begin (input_ami_stream_t.propagate ns)) m ->
      steps_total (input_ami_stream_t.base m) =
        ami.stream_len (input_ami_stream_t.stream ns) /\
      0 <= steps_done (input_ami_stream_t.base m) - steps_done (input_ami_stream_t.base ns)
        <= steps_total (input_ami_stream_t.base m)) /\
   (exists b,
      input_ami_stream_t.run ns = Returns b /\
      rtc (next input_ami_stream_t.go_iter)
          (input_ami_stream_t.begin (input_ami_stream_t.propagate ns)) b)) /\
  ((forall m,
      rtc (next input_ami_stack_t.go_iter)
          (input_ami_stack_t.begin (input_ami_stack_t.propagate nk)) m ->
      steps_total (input_ami_stack_t.base m) =
        ami.size (input_ami_stack_t.stack nk) /\
      0 <= steps_done (input_ami_stack_t.base m) - steps_done (input_ami_stack_t.base nk)
        <= steps_total (input_ami_stack_t.base m)) /\
   (exists b,
      input_ami_stack_t.run nk = Returns b /\
      rtc (next input_ami_stack_t.go_iter)
          (input_ami_stack_t.begin (input_ami_stack_t.propagate nk)) b)).
Proof.
  intros Hfits Hfitk. split; split.
  - intros m Hreach. apply stream_go_reaches in Hreach.
    destruct Hreach as (xs & Hpre & ->).
    rewrite stream_begin in Hpre. simpl in *. rewrite drop_0 in Hpre.
    apply prefix_length in Hpre. unfold set_steps, ami.stream_len in *. simpl.
    rewrite stream_size_type_fits by exact Hfits. lia.
  - unfold input_ami_stream_t.run, input_ami_stream_t.go.
    destruct (while_ends input_ami_stream_t.go_iter input_ami_stream_t.unread
                input_ami_stream_t.go_iter_reads_on
                (input_ami_stream_t.begin (input_ami_stream_t.propagate ns)))
      as (m & Hreach & Hend).
    pose proof (stream_go_iter_cases m) as Hcase.
    destruct (input_ami_stream_t.go_iter m) as [y|b|]; [contradiction| |contradiction].
    destruct Hcase as (-> & _). exists m. split; [exact Hend|exact Hreach].
  - intros m Hreach. apply stack_go_reaches in Hreach.
    destruct Hreach as (xs & rest & Hsplit & ->).
    unfold input_ami_stack_t.begin in *. simpl in *.
    apply (f_equal length) in Hsplit. rewrite length_app in Hsplit.
    unfold set_steps, ami.size in *. simpl.
    rewrite stream_size_type_fits by exact Hfitk. lia.
  - unfold input_ami_stack_t.run, input_ami_stack_t.go.
    destruct (while_ends input_ami_stack_t.go_iter input_ami_stack_t.height
                input_ami_stack_t.go_iter_pops_off
                (input_ami_stack_t.begin (input_ami_stack_t.propagate nk)))
      as (m & Hreach & Hend).
    pose proof (stack_go_iter_cases m) as Hcase.
    destruct (input_ami_stack_t.go_iter m) as [y|b|]; [contradiction| |contradiction].
    destruct Hcase as (-> & _). exists m. split; [exact Hend|exact Hreach].
Qed.

(** C9 at the stream of scenario S1 and the stack of scenario S2: the sum of
    the steps stays between 0 and 3. *)
Lemma steps_within_total_witness :
  ami.stream_len (input_ami_stream_t.stream scenarios.S1) < 2 ^ 64 /\
  ami.size (input_ami_stack_t.stack scenarios.S2) < 2 ^ 64 /\
  ((forall m,
      rtc (next input_ami_stream_t.go_iter)
          (input_ami_stream_t.begin (@input_ami_stream_t.propagate _ _ uint64 scenarios.S1)) m ->
      steps_total (input_ami_stream_t.base m) = 3 /\
      0 <= steps_done (input_ami_stream_t.base m) - 0
        <= steps_total (input_ami_stream_t.base m)) /\
   (exists b,
      @input_ami_stream_t.run _ _ _ uint64 scenarios.S1 = Returns b /\
      rtc (next input_ami_stream_t.go_iter)
          (input_ami_stream_t.begin (@input_ami_stream_t.propagate _ _ uint64 scenarios.S1)) b)) /\
  ((forall m,
      rtc (next input_ami_stack_t.go_iter)
          (input_ami_stack_t.begin (@input_ami_stack_t.propagate _ _ uint64 scenarios.S2)) m ->
      steps_total (input_ami_stack_t.base m) = 3 /\
      0 <= steps_done (input_ami_stack_t.base m) - 0
        <= steps_total (input_ami_stack_t.base m)) /\
   (exists b,
      @input_ami_stack_t.run _ _ _ uint64 scenarios.S2 = Returns b /\
      rtc (next input_ami_stack_t.go_iter)
          (input_ami_stack_t.begin (@input_ami_stack_t.propagate _ _ uint64 scenarios.S2)) b)).
Proof.
  split; [reflexivity|]. split; [reflexivity|].
  apply (@steps_within_total _ _ _ uint64 scenarios.S1 scenarios.S2); reflexivity.
Defined.

(** C10, as amended ([pull] reads the item unguarded). What [pull] does
    depends on the pointer that [pop] has or has not set, never on the status
    of [pop]. When [can_pull] holds and [pop] reports no container error,
    [pop] succeeds and sets the pointer, and [pull] returns the top item and
    leaves the rest of the stack; the read of an unset pointer is not reached.
    Nothing else guards that read: [pull] reads the unset pointer exactly when
    the status of [pop] is not [NO_ERROR], so whenever [can_pull] does not
    hold, and also when [can_pull] holds and [pop] fails all the same. *)
Theorem pull_reads_item_unguarded {T : Type} (n : pull_input_ami_stack_t.state T) :
  pull_input_ami_stack_t.can_pull n = true ->
  (ami.pop (pull_input_ami_stack_t.stack n)).1.1 <> ami.IO_ERROR ->
  (exists x n',
     ami.pop (pull_input_ami_stack_t.stack n) =
       (ami.NO_ERROR, Some x, pull_input_ami_stack_t.stack n') /\
     pull_input_ami_stack_t.pull n = Returns (x, n') /\
     ami.k_items (pull_input_ami_stack_t.stack n) =
       x :: ami.k_items (pull_input_ami_stack_t.stack n') /\
     pull_input_ami_stack_t.base n' = pull_input_ami_stack_t.base n) /\
  (forall m : pull_input_ami_stack_t.state T,
     pull_input_ami_stack_t.pull m =
     match (ami.pop (pull_input_ami_stack_t.stack m)).1.2 with
     | Some x =>
         Returns (x, pull_input_ami_stack_t.mk (pull_input_ami_stack_t.base m)
                       (ami.pop (pull_input_ami_stack_t.stack m)).2)
     | None => Undefined
     end) /\
  (forall m : pull_input_ami_stack_t.state T,
     (ami.pop (pull_input_ami_stack_t.stack m)).1.1 <> ami.NO_ERROR <->
     pull_input_ami_stack_t.pull m = Undefined) /\
  (forall m : pull_input_ami_stack_t.state T,
     pull_input_ami_stack_t.can_pull m = false ->
     pull_input_ami_stack_t.pull m = Undefined) /\
  (forall m : pull_input_ami_stack_t.state T,
     pull_input_ami_stack_t.can_pull m = true ->
     (ami.pop (pull_input_ami_stack_t.stack m)).1.1 = ami.IO_ERROR ->
     pull_input_ami_stack_t.pull m = Undefined).
Proof.
  intros Hcan Hstatus.
  assert (Hundef : forall m : pull_input_ami_stack_t.state T,
    (ami.pop (pull_input_ami_stack_t.stack m)).1.1 <> ami.NO_ERROR <->
    pull_input_ami_stack_t.pull m = Undefined).
  { intros m. pose proof (pull_cases m) as Hcase.
    destruct (pull_input_ami_stack_t.pull m) as [[x m']|].
    - destruct Hcase as (rest & _ & _ & Hok & _). split; [contradiction|discriminate].
    - destruct Hcase as (Hfail & _). split; auto. }
  split; [|split; [|split; [exact Hundef|split]]].
  - destruct n as [bs [items bad]]. simpl in *.
    unfold pull_input_ami_stack_t.can_pull, ami.is_empty in Hcan. simpl in Hcan.
    destruct items as [|x rest]; [discriminate|].
    unfold pull_input_ami_stack_t.pull, ami.pop in *. simpl in *.
    destruct (decide (bad = Some (length rest))) as [Hbad|Hbad]; simpl in *;
      [congruence|].
    exists x, (pull_input_ami_stack_t.mk bs (ami.mk_stack rest bad)).
    repeat split.
  - intros m. unfold pull_input_ami_stack_t.pull.
    destruct (ami.pop (pull_input_ami_stack_t.stack m)) as [[e item] k'].
    reflexivity.
  - intros m Hcannot. apply Hundef.
    unfold pull_input_ami_stack_t.can_pull, ami.is_empty, ami.pop in *.
    destruct (ami.k_items (pull_input_ami_stack_t.stack m)); [|discriminate].
    simpl. discriminate.
  - intros m _ Hfail. apply Hundef. rewrite Hfail. discriminate.
Qed.

(** C10, as amended, at scenario S4: [pull] returns 1 and leaves the stack
    [2]. *)
Lemma pull_reads_item_unguarded_witness :
  pull_input_ami_stack_t.can_pull scenarios.S4 = true /\
  (ami.pop (pull_input_ami_stack_t.stack scenarios.S4)).1.1 <> ami.IO_ERROR /\
  (exists x n',
     ami.pop (pull_input_ami_stack_t.stack scenarios.S4) =
       (ami.NO_ERROR, Some x, pull_input_ami_stack_t.stack n') /\
     pull_input_ami_stack_t.pull scenarios.S4 = Returns (x, n') /\
     ami.k_items (pull_input_ami_stack_t.stack scenarios.S4) =
       x :: ami.k_items (pull_input_ami_stack_t.stack n') /\
     pull_input_ami_stack_t.base n' = pull_input_ami_stack_t.base scenarios.S4) /\
  (forall m : pull_input_ami_stack_t.state Z,
     pull_input_ami_stack_t.pull m =
     match (ami.pop (pull_input_ami_stack_t.stack m)).1.2 with
     | Some x =>
         Returns (x, pull_input_ami_stack_t.mk (pull_input_ami_stack_t.base m)
                       (ami.pop (pull_input_ami_stack_t.stack m)).2)
     | None => Undefined
     end) /\
  (forall m : pull_input_ami_stack_t.state Z,
     (ami.pop (pull_input_ami_stack_t.stack m)).1.1 <> ami.NO_ERROR <->
     pull_input_ami_stack_t.pull m = Undefined) /\
  (forall m : pull_input_ami_stack_t.state Z,
     pull_input_ami_stack_t.can_pull m = false ->
     pull_input_ami_stack_t.pull m = Undefined) /\
  (forall m : pull_input_ami_stack_t.state Z,
     pull_input_ami_stack_t.can_pull m = true ->
     (ami.pop (pull_input_ami_stack_t.stack m)).1.1 = ami.IO_ERROR ->
     pull_input_ami_stack_t.pull m = Undefined).
Proof.
  split; [reflexivity|]. split; [simpl; discriminate|].
  apply (pull_reads_item_unguarded scenarios.S4); [reflexivity|simpl; discriminate].
Defined.

(** C10 fails as stated. On the stack [7, 8, 9] whose top item the storage
    fails to deliver, the stack is not empty and [can_pull] holds, yet [pop]
    reports [IO_ERROR] and sets no pointer: [pull] reads the unset pointer. *)
Lemma can_pull_does_not_guard_pull :
  pull_input_ami_stack_t.can_pull
    (pull_input_ami_stack_t.mk scenarios.idle (ami.mk_stack [7; 8; 9] (Some 2%nat))) = true /\
  ami.is_empty (ami.mk_stack [7; 8; 9] (Some 2%nat)) = false /\
  ami.pop (ami.mk_stack [7; 8; 9] (Some 2%nat)) =
    (ami.IO_ERROR, None, ami.mk_stack [7; 8; 9] (Some 2%nat)) /\
  pull_input_ami_stack_t.pull
    (pull_input_ami_stack_t.mk scenarios.idle (ami.mk_stack [7; 8; 9] (Some 2%nat)))
  = Undefined.
Proof. repeat split. Qed.

(** C7 (the builders). [input_ami_stream] and [input_ami_stack] return a
    [pipe_begin] over a [factory] of the node of their name. The builder
    [pull_input_ami_stack] returns a [pullpipe_begin] over a [termfactory], but
    of [bits::pull_input_t], a template this header does not declare, and not
    of [bits::pull_input_ami_stack_t], which no builder names. *)
Theorem pull_input_ami_stack_builds_pull_input_t :
  builders.prefix builders.input_ami_stream = builders.pipe_begin /\
  builders.fact builders.input_ami_stream = builders.factory /\
  builders.template builders.input_ami_stream = builders.input_ami_stream_t /\
  builders.prefix builders.input_ami_stack = builders.pipe_begin /\
  builders.fact builders.input_ami_stack = builders.factory /\
  builders.template builders.input_ami_stack = builders.input_ami_stack_t /\
  builders.prefix builders.pull_input_ami_stack = builders.pullpipe_begin /\
  builders.fact builders.pull_input_ami_stack = builders.termfactory /\
  builders.template builders.pull_input_ami_stack = builders.pull_input_t /\
  builders.template builders.pull_input_ami_stack <> builders.pull_input_ami_stack_t /\
  builders.declared_here (builders.template builders.pull_input_ami_stack) = false /\
  (forall f, In f [builders.input_ami_stream; builders.input_ami_stack;
                   builders.pull_input_ami_stack] ->
             builders.template f <> builders.pull_input_ami_stack_t).
Proof.
  repeat (split; [reflexivity || discriminate|]).
  intros f [<-|[<-|[<-|[]]]]; discriminate.
Qed.

(** * Further properties of the nodes *)

(** ** Two loops side by side *)

Section while_simulation.
Context {A B : Type} (iterA : A -> loop A) (boundA : A -> nat).
Context (iterB : B -> loop B) (boundB : B -> nat).
Context (decA : forall a a', iterA a = Continue a' -> (boundA a' < boundA a)%nat).
Context (decB : forall b b', iterB b = Continue b' -> (boundB b' < boundB b)%nat).
Context (R : A -> B -> Prop).

End while_simulation.

(** ** The pull source: what it forwards and what it leaves alone *)

(** X1 (count fidelity of the pull source). On a stack that reports no error
    and whose size fits [stream_size_type], the value the pull source forwards
    under ["items"] in [propagate], and the total it declares there, are the
    number of calls of [pull] a consumer makes before [can_pull] fails; the
    items pulled are those of the stack, top first. *)
Theorem pull_count_fidelity {T : Type} `{!size_width}
    (n : pull_input_ami_stack_t.state T) :
  ami.k_bad (pull_input_ami_stack_t.stack n) = None ->
  ami.size (pull_input_ami_stack_t.stack n) < 2 ^ stream_size_bits ->
  exists m xs,
    pull_input_ami_stack_t.drain (pull_input_ami_stack_t.propagate n) = Returns (m, xs) /\
    xs = ami.k_items (pull_input_ami_stack_t.stack n) /\
    forwarded (pull_input_ami_stack_t.base m) !! "items" = Some (Z.of_nat (length xs)) /\
    steps_total (pull_input_ami_stack_t.base m) = Z.of_nat (length xs) /\
    pull_input_ami_stack_t.can_pull m = false.
Proof.
  intros Hbad Hfit.
  rewrite (drain_nominal (pull_input_ami_stack_t.propagate n)) by exact Hbad.
  eexists _, _. split; [reflexivity|]. simpl. split; [reflexivity|].
  unfold ami.size in *. rewrite lookup_insert_eq. unfold set_steps. simpl.
  rewrite stream_size_type_fits by exact Hfit. auto.
Qed.

(** X1 at scenario S4: two items forwarded, two pulled. *)
Lemma pull_count_fidelity_witness :
  ami.k_bad (pull_input_ami_stack_t.stack scenarios.S4) = None /\
  ami.size (pull_input_ami_stack_t.stack scenarios.S4) < 2 ^ 64 /\
  exists m xs,
    pull_input_ami_stack_t.drain (@pull_input_ami_stack_t.propagate _ uint64 scenarios.S4)
    = Returns (m, xs) /\
    xs = [1; 2] /\
    forwarded (pull_input_ami_stack_t.base m) !! "items" = Some (Z.of_nat (length xs)) /\
    steps_total (pull_input_ami_stack_t.base m) = Z.of_nat (length xs) /\
    pull_input_ami_stack_t.can_pull m = false.
Proof.
  split; [reflexivity|]. split; [reflexivity|].
  apply (@pull_count_fidelity _ uint64 scenarios.S4); reflexivity.
Defined.

(** X2 ([pull] reports no progress). When the [j+1]-th call of [pull] in a
    row returns, the node's base is the one before the calls: nothing was
    forwarded and no step was declared or reported. The stack has lost its
    [j+1] top items and nothing else. *)
Theorem pull_leaves_base {T : Type} (j : nat) (n : pull_input_ami_stack_t.state T)
    (x : T) (n' : pull_input_ami_stack_t.state T) :
  pull_input_ami_stack_t.pull_after j n = Returns (x, n') ->
  pull_input_ami_stack_t.base n' = pull_input_ami_stack_t.base n /\
  ami.k_items (pull_input_ami_stack_t.stack n') =
    drop (S j) (ami.k_items (pull_input_ami_stack_t.stack n)) /\
  ami.size (pull_input_ami_stack_t.stack n') =
    ami.size (pull_input_ami_stack_t.stack n) - Z.of_nat (S j).
Proof.
  intros Hret. apply pull_after_returns in Hret. destruct Hret as (Hx & ->).
  apply lookup_lt_Some in Hx. simpl. split; [reflexivity|]. split; [reflexivity|].
  unfold ami.size. simpl. rewrite length_drop. lia.
Qed.

(** X2 at scenario S4, after the second call. *)
Lemma pull_leaves_base_witness :
  pull_input_ami_stack_t.pull_after 1 scenarios.S4 =
    Returns (2, pull_input_ami_stack_t.mk scenarios.idle (ami.mk_stack [] None)) /\
  pull_input_ami_stack_t.base
    (pull_input_ami_stack_t.mk scenarios.idle (ami.mk_stack ([] : list Z) None)) =
    pull_input_ami_stack_t.base scenarios.S4 /\
  ami.k_items (pull_input_ami_stack_t.stack
    (pull_input_ami_stack_t.mk scenarios.idle (ami.mk_stack ([] : list Z) None))) =
    drop 2 (ami.k_items (pull_input_ami_stack_t.stack scenarios.S4)) /\
  ami.size (pull_input_ami_stack_t.stack
    (pull_input_ami_stack_t.mk scenarios.idle (ami.mk_stack ([] : list Z) None))) =
    ami.size (pull_input_ami_stack_t.stack scenarios.S4) - Z.of_nat 2.
Proof.
  split; [reflexivity|].
  apply (pull_leaves_base 1 scenarios.S4 2
           (pull_input_ami_stack_t.mk scenarios.idle (ami.mk_stack [] None))).
  reflexivity.
Defined.

(** ** The push sources: what is consumed is pushed *)

(** X3 (nothing is lost). Whatever ends [go], the end of the input or a
    container error: the push source over a stack has pushed, in order, exactly
    the items it took off the stack, and the stack keeps the others in their
    order; the push source over a stream has pushed exactly the items between
    the cursor before and the cursor after, and the stream keeps all its
    items. *)
Theorem go_pushes_what_it_consumes {dest_t item_type : Type} `{!Dest dest_t item_type}
    (ns : input_ami_stream_t.state dest_t item_type)
    (nk : input_ami_stack_t.state dest_t item_type) :
  (exists b,
     input_ami_stream_t.go ns = Returns b /\
     ami.s_items (input_ami_stream_t.stream b) = ami.s_items (input_ami_stream_t.stream ns) /\
     (ami.s_pos (input_ami_stream_t.stream ns) <= ami.s_pos (input_ami_stream_t.stream b))%nat /\
     input_ami_stream_t.dest b =
       push_all
         (take (ami.s_pos (input_ami_stream_t.stream b) - ami.s_pos (input_ami_stream_t.stream ns))
               (drop (ami.s_pos (input_ami_stream_t.stream ns))
                     (ami.s_items (input_ami_stream_t.stream ns))))
         (input_ami_stream_t.dest ns)) /\
  (exists b xs,
     input_ami_stack_t.go nk = Returns b /\
     ami.k_items (input_ami_stack_t.stack nk) =
       xs ++ ami.k_items (input_ami_stack_t.stack b) /\
     input_ami_stack_t.dest b = push_all xs (input_ami_stack_t.dest nk)).
Proof.
  split.
  - destruct (stream_go_spec ns) as (xs & [rest Hpre] & _ & Hgo).
    rewrite Hgo. eexists. split; [reflexivity|]. simpl.
    split; [reflexivity|]. split; [lia|].
    replace (ami.s_pos (input_ami_stream_t.stream ns) + length xs -
             ami.s_pos (input_ami_stream_t.stream ns))%nat with (length xs) by lia.
    rewrite Hpre, take_app_length. reflexivity.
  - destruct (stack_go_spec nk) as (xs & rest & Hsplit & _ & Hgo).
    rewrite Hgo. eexists _, xs. split; [reflexivity|]. simpl. auto.
Qed.

(** X4 ([go] reads from the cursor). Without [begin], [go] on a stream that
    reports no error pushes the items from the cursor to the end and none of
    those before the cursor; a second [go] right after pushes nothing. On any
    stream whose cursor is at or past the end, [go] returns at once and
    changes nothing. *)
Theorem go_starts_at_cursor {dest_t item_type : Type} `{!Dest dest_t item_type}
    (n : input_ami_stream_t.state dest_t item_type) :
  ami.s_bad (input_ami_stream_t.stream n) = None ->
  (exists b,
     input_ami_stream_t.go n = Returns b /\
     input_ami_stream_t.dest b =
       push_all (drop (ami.s_pos (input_ami_stream_t.stream n))
                      (ami.s_items (input_ami_stream_t.stream n)))
                (input_ami_stream_t.dest n) /\
     input_ami_stream_t.go b = Returns b) /\
  (forall m : input_ami_stream_t.state dest_t item_type,
     (length (ami.s_items (input_ami_stream_t.stream m)) <=
      ami.s_pos (input_ami_stream_t.stream m))%nat ->
     input_ami_stream_t.go m = Returns m).
Proof.
  intros Hbad.
  assert (Hend : forall m : input_ami_stream_t.state dest_t item_type,
    (length (ami.s_items (input_ami_stream_t.stream m)) <=
     ami.s_pos (input_ami_stream_t.stream m))%nat ->
    input_ami_stream_t.go m = Returns m).
  { intros m Hpast. unfold input_ami_stream_t.go. rewrite while_step.
    unfold input_ami_stream_t.go_iter, ami.read_item.
    rewrite (lookup_ge_None_2 _ _ Hpast). destruct m. reflexivity. }
  split; [|exact Hend].
  rewrite stream_go_nominal by exact Hbad.
  eexists. split; [reflexivity|]. split; [reflexivity|].
  apply Hend. simpl. rewrite length_drop. lia.
Qed.

(** X4 on the stream [10, 20, 30] with the cursor on its second item. *)
Lemma go_starts_at_cursor_witness :
  ami.s_bad (ami.mk_stream [10; 20; 30] 1 None) = None /\
  exists b,
    input_ami_stream_t.go
      (input_ami_stream_t.mk scenarios.idle (ami.mk_stream [10; 20; 30] 1 None) [])
    = Returns b /\
    input_ami_stream_t.dest b = push_all (drop 1 [10; 20; 30]) [] /\
    input_ami_stream_t.go b = Returns b.
Proof.
  split; [reflexivity|].
  apply (go_starts_at_cursor
           (input_ami_stream_t.mk scenarios.idle (ami.mk_stream [10; 20; 30] 1 None) [])).
  reflexivity.
Defined.

(** ** Running a source again *)

(** X5 (a second run). Over a stream that reports no error, a second run
    (propagate, begin, go) of the push source pushes every item once more,
    because [begin] seeks back to position 0, and forwards the same count.
    Over a stack, [go] has consumed the items: a second run forwards 0 items,
    declares 0 steps and pushes nothing. *)
Theorem second_run {dest_t item_type : Type} `{!Dest dest_t item_type} `{!size_width}
    (ns : input_ami_stream_t.state dest_t item_type)
    (nk : input_ami_stack_t.state dest_t item_type) :
  ami.s_bad (input_ami_stream_t.stream ns) = None ->
  ami.k_bad (input_ami_stack_t.stack nk) = None ->
  ami.stream_len (input_ami_stream_t.stream ns) < 2 ^ stream_size_bits ->
  (exists b b',
     input_ami_stream_t.run ns = Returns b /\
     input_ami_stream_t.run b = Returns b' /\
     input_ami_stream_t.dest b' =
       push_all (ami.s_items (input_ami_stream_t.stream ns) ++
                 ami.s_items (input_ami_stream_t.stream ns))
                (input_ami_stream_t.dest ns) /\
     forwarded (input_ami_stream_t.base b') !! "items" =
       Some (ami.stream_len (input_ami_stream_t.stream ns))) /\
  (exists b b',
     input_ami_stack_t.run nk = Returns b /\
     input_ami_stack_t.run b = Returns b' /\
     input_ami_stack_t.dest b' = input_ami_stack_t.dest b /\
     forwarded (input_ami_stack_t.base b') !! "items" = Some 0 /\
     steps_total (input_ami_stack_t.base b') = 0).
Proof.
  intros Hs Hk Hfit. split.
  - unfold input_ami_stream_t.run.
    rewrite stream_begin_go_nominal by exact Hs.
    eexists _, _. split; [reflexivity|].
    rewrite stream_begin_go_nominal by reflexivity.
    split; [reflexivity|]. simpl. rewrite push_all_app. split; [reflexivity|].
    rewrite lookup_insert_eq. unfold ami.stream_len in *. simpl.
    rewrite stream_size_type_fits by exact Hfit. reflexivity.
  - unfold input_ami_stack_t.run, input_ami_stack_t.begin.
    rewrite stack_go_nominal by exact Hk.
    eexists _, _. split; [reflexivity|].
    rewrite stack_go_nominal by reflexivity.
    split; [reflexivity|]. simpl. rewrite lookup_insert_eq.
    unfold set_steps, stream_size_type, ami.size. simpl.
    rewrite Zmod_0_l. auto.
Qed.

(** X5 at the stream of scenario S1 and the stack of scenario S2. *)
Lemma second_run_witness :
  ami.s_bad (input_ami_stream_t.stream scenarios.S1) = None /\
  ami.k_bad (input_ami_stack_t.stack scenarios.S2) = None /\
  ami.stream_len (input_ami_stream_t.stream scenarios.S1) < 2 ^ 64 /\
  (exists b b',
     @input_ami_stream_t.run _ _ _ uint64 scenarios.S1 = Returns b /\
     @input_ami_stream_t.run _ _ _ uint64 b = Returns b' /\
     input_ami_stream_t.dest b' = push_all ([10; 20; 30] ++ [10; 20; 30]) [] /\
     forwarded (input_ami_stream_t.base b') !! "items" = Some 3) /\
  (exists b b',
     @input_ami_stack_t.run _ _ _ uint64 scenarios.S2 = Returns b /\
     @input_ami_stack_t.run _ _ _ uint64 b = Returns b' /\
     input_ami_stack_t.dest b' = input_ami_stack_t.dest b /\
     forwarded (input_ami_stack_t.base b') !! "items" = Some 0 /\
     steps_total (input_ami_stack_t.base b') = 0).
Proof.
  do 3 (split; [reflexivity|]).
  apply (@second_run _ _ _ uint64 scenarios.S1 scenarios.S2); reflexivity.
Defined.

(** ** A run that a container error ends *)

(** On a stream whose failing position [p] holds an item and lies [k] items
    after the cursor, [go] pushes those [k] items and returns with the cursor
    on [p]. *)
Lemma stream_go_stops_at_bad {dest_t item_type : Type} `{!Dest dest_t item_type}
    (k : nat) (n : input_ami_stream_t.state dest_t item_type) (p : nat) :
  ami.s_bad (input_ami_stream_t.stream n) = Some p ->
  (p < length (ami.s_items (input_ami_stream_t.stream n)))%nat ->
  (ami.s_pos (input_ami_stream_t.stream n) + k = p)%nat ->
  input_ami_stream_t.go n =
  Returns (input_ami_stream_t.mk
             (mk_node (forwarded (input_ami_stream_t.base n))
                      (steps_total (input_ami_stream_t.base n))
                      (steps_done (input_ami_stream_t.base n) + Z.of_nat k))
             (ami.mk_stream (ami.s_items (input_ami_stream_t.stream n)) p (Some p))
             (push_all (take k (drop (ami.s_pos (input_ami_stream_t.stream n))
                                     (ami.s_items (input_ami_stream_t.stream n))))
                       (input_ami_stream_t.dest n))).
Proof.
  revert n. induction k as [|k IH];
    intros [[fw tot dn] [items pos bad] d]; simpl; intros -> Hp Hk;
    destruct (lookup_lt_is_Some_2 items pos ltac:(lia)) as [x Hx];
    unfold input_ami_stream_t.go; rewrite while_step.
  - rewrite Nat.add_0_r in Hk. subst p.
    assert (input_ami_stream_t.go_iter
              (input_ami_stream_t.mk (mk_node fw tot dn)
                 (ami.mk_stream items pos (Some pos)) d) =
            Break (input_ami_stream_t.mk (mk_node fw tot dn)
                     (ami.mk_stream items pos (Some pos)) d)) as ->.
    { unfold input_ami_stream_t.go_iter, ami.read_item. simpl. rewrite Hx.
      destruct (decide _) as [_|Hne]; [reflexivity|congruence]. }
    rewrite Z.add_0_r. reflexivity.
  - assert (input_ami_stream_t.go_iter
              (input_ami_stream_t.mk (mk_node fw tot dn)
                 (ami.mk_stream items pos (Some p)) d) =
            Continue (input_ami_stream_t.mk (step 1 (mk_node fw tot dn))
                        (ami.mk_stream items (S pos) (Some p)) (push x d))) as ->.
    { unfold input_ami_stream_t.go_iter, ami.read_item. simpl. rewrite Hx.
      destruct (decide _) as [Heq|_]; [injection Heq; lia|reflexivity]. }
    pose proof (IH (input_ami_stream_t.mk (step 1 (mk_node fw tot dn))
                      (ami.mk_stream items (S pos) (Some p)) (push x d))
                   eq_refl Hp ltac:(simpl; lia)) as Hgo.
    unfold input_ami_stream_t.go in Hgo. rewrite Hgo. simpl.
    rewrite (drop_S _ _ _ Hx). simpl. do 3 f_equal. lia.
Qed.

(** On a stack whose failing height [h] is below its size, [go] pushes the
    items above that height and returns with the others left on the stack. *)
Lemma stack_go_stops_at_bad {dest_t item_type : Type} `{!Dest dest_t item_type}
    (items : list item_type) (bs : node) (d : dest_t) (h : nat) :
  (h < length items)%nat ->
  input_ami_stack_t.go (input_ami_stack_t.mk bs (ami.mk_stack items (Some h)) d) =
  Returns (input_ami_stack_t.mk
             (mk_node (forwarded bs) (steps_total bs)
                      (steps_done bs + Z.of_nat (length items - 1 - h)))
             (ami.mk_stack (drop (length items - 1 - h) items) (Some h))
             (push_all (take (length items - 1 - h) items) d)).
Proof.
  revert bs d. induction items as [|x rest IH]; intros [fw tot dn] d Hh;
    simpl in Hh; [lia|].
  unfold input_ami_stack_t.go. rewrite while_step.
  destruct (decide (h = length rest)) as [->|Hne].
  - assert (input_ami_stack_t.go_iter
              (input_ami_stack_t.mk (mk_node fw tot dn)
                 (ami.mk_stack (x :: rest) (Some (length rest))) d) =
            Break (input_ami_stack_t.mk (mk_node fw tot dn)
                     (ami.mk_stack (x :: rest) (Some (length rest))) d)) as ->.
    { unfold input_ami_stack_t.go_iter, ami.pop. simpl.
      destruct (decide _) as [_|Hne]; [reflexivity|congruence]. }
    simpl. replace (length rest - 0 - length rest)%nat with 0%nat by lia.
    simpl. rewrite Z.add_0_r. reflexivity.
  - assert (input_ami_stack_t.go_iter
              (input_ami_stack_t.mk (mk_node fw tot dn)
                 (ami.mk_stack (x :: rest) (Some h)) d) =
            Continue (input_ami_stack_t.mk (step 1 (mk_node fw tot dn))
                        (ami.mk_stack rest (Some h)) (push x d))) as ->.
    { unfold input_ami_stack_t.go_iter, ami.pop. simpl.
      destruct (decide _) as [Heq|_]; [congruence|reflexivity]. }
    pose proof (IH (step 1 (mk_node fw tot dn)) (push x d) ltac:(lia)) as Hgo.
    unfold input_ami_stack_t.go in Hgo. rewrite Hgo. simpl.
    replace (length rest - 0 - h)%nat with (S (length rest - 1 - h)) by lia.
    simpl. do 3 f_equal. lia.
Qed.

(** X6 (a run that a container error ends). When the stream's failing
    position [p] holds an item, a run (propagate, begin, go) of the push source
    returns after pushing the [p] items before it, in order, with [p] steps
    reported and the cursor left on [p]: fewer pushes than the stream has
    items. When the stack's failing height [h] is below its size, the run
    returns after pushing the items above that height, top first, and the
    [h + 1] others stay on the stack. *)
Theorem run_stops_at_container_error {dest_t item_type : Type}
    `{!Dest dest_t item_type} `{!size_width}
    (ns : input_ami_stream_t.state dest_t item_type)
    (nk : input_ami_stack_t.state dest_t item_type) (p h : nat) :
  ami.s_bad (input_ami_stream_t.stream ns) = Some p ->
  (p < length (ami.s_items (input_ami_stream_t.stream ns)))%nat ->
  ami.k_bad (input_ami_stack_t.stack nk) = Some h ->
  (h < length (ami.k_items (input_ami_stack_t.stack nk)))%nat ->
  (exists b,
     input_ami_stream_t.run ns = Returns b /\
     input_ami_stream_t.dest b =
       push_all (take p (ami.s_items (input_ami_stream_t.stream ns)))
                (input_ami_stream_t.dest ns) /\
     steps_done (input_ami_stream_t.base b) =
       steps_done (input_ami_stream_t.base ns) + Z.of_nat p /\
     ami.s_pos (input_ami_stream_t.stream b) = p /\
     Z.of_nat p < ami.stream_len (input_ami_stream_t.stream ns)) /\
  (exists b,
     input_ami_stack_t.run nk = Returns b /\
     input_ami_stack_t.dest b =
       push_all (take (length (ami.k_items (input_ami_stack_t.stack nk)) - 1 - h)
                      (ami.k_items (input_ami_stack_t.stack nk)))
                (input_ami_stack_t.dest nk) /\
     ami.k_items (input_ami_stack_t.stack b) =
       drop (length (ami.k_items (input_ami_stack_t.stack nk)) - 1 - h)
            (ami.k_items (input_ami_stack_t.stack nk)) /\
     steps_done (input_ami_stack_t.base b) =
       steps_done (input_ami_stack_t.base nk) +
       Z.of_nat (length (ami.k_items (input_ami_stack_t.stack nk)) - 1 - h) /\
     ami.size (input_ami_stack_t.stack b) = Z.of_nat (S h)).
Proof.
  intros Hs Hp Hk Hh. split.
  - unfold input_ami_stream_t.run. rewrite stream_begin.
    rewrite (stream_go_stops_at_bad p _ p) by (simpl; auto).
    eexists. split; [reflexivity|]. simpl. rewrite drop_0.
    unfold ami.stream_len. repeat split; lia.
  - unfold input_ami_stack_t.run, input_ami_stack_t.begin.
    destruct nk as [bs [items bad] d]. simpl in *. subst bad.
    unfold input_ami_stack_t.propagate. simpl.
    rewrite (stack_go_stops_at_bad items _ d h Hh).
    eexists. split; [reflexivity|]. simpl.
    unfold ami.size. simpl. rewrite length_drop. repeat split; lia.
Qed.

(** X6 at scenario S5 and the stack of scenario S2 with a failing second pop:
    one push each. *)
Lemma run_stops_at_container_error_witness :
  ami.s_bad (input_ami_stream_t.stream scenarios.S5) = Some 1%nat /\
  (1 < length (ami.s_items (input_ami_stream_t.stream scenarios.S5)))%nat /\
  ami.k_bad (input_ami_stack_t.stack scenarios.S5_stack) = Some 1%nat /\
  (1 < length (ami.k_items (input_ami_stack_t.stack scenarios.S5_stack)))%nat /\
  (exists b,
     @input_ami_stream_t.run _ _ _ uint64 scenarios.S5 = Returns b /\
     input_ami_stream_t.dest b = push_all (take 1 [10; 20]) [] /\
     steps_done (input_ami_stream_t.base b) = 0 + Z.of_nat 1 /\
     ami.s_pos (input_ami_stream_t.stream b) = 1%nat /\
     Z.of_nat 1 < ami.stream_len (input_ami_stream_t.stream scenarios.S5)) /\
  (exists b,
     @input_ami_stack_t.run _ _ _ uint64 scenarios.S5_stack = Returns b /\
     input_ami_stack_t.dest b = push_all (take (3 - 1 - 1) [7; 8; 9]) [] /\
     ami.k_items (input_ami_stack_t.stack b) = drop (3 - 1 - 1) [7; 8; 9] /\
     steps_done (input_ami_stack_t.base b) = 0 + Z.of_nat (3 - 1 - 1) /\
     ami.size (input_ami_stack_t.stack b) = Z.of_nat 2).
Proof.
  split; [reflexivity|]. split; [simpl; lia|].
  split; [reflexivity|]. split; [simpl; lia|].
  apply (@run_stops_at_container_error _ _ _ uint64 scenarios.S5 scenarios.S5_stack 1 1);
    (reflexivity || (simpl; lia)).
Defined.

(** The draining consumer, started with [acc] already pulled, on a stack
    whose failing height is below its size. *)
Lemma drain_loop_undefined {T : Type} (items : list T) (bs : node) (acc : list T)
    (h : nat) :
  (h < length items)%nat ->
  while pull_input_ami_stack_t.drain_iter pull_input_ami_stack_t.height
    pull_input_ami_stack_t.drain_iter_decreases
    (pull_input_ami_stack_t.mk bs (ami.mk_stack items (Some h)), acc) = Undefined.
Proof.
  revert acc. induction items as [|x rest IH]; intros acc Hh; simpl in Hh; [lia|].
  rewrite while_step.
  destruct (decide (h = length rest)) as [->|Hne].
  - assert (pull_input_ami_stack_t.drain_iter
              (pull_input_ami_stack_t.mk bs (ami.mk_stack (x :: rest) (Some (length rest))),
               acc) = Undef) as ->; [|reflexivity].
    unfold pull_input_ami_stack_t.drain_iter, pull_input_ami_stack_t.pull, ami.pop.
    simpl. destruct (decide _) as [_|Hne]; [reflexivity|congruence].
  - assert (pull_input_ami_stack_t.drain_iter
              (pull_input_ami_stack_t.mk bs (ami.mk_stack (x :: rest) (Some h)), acc) =
            Continue (pull_input_ami_stack_t.mk bs (ami.mk_stack rest (Some h)),
                      acc ++ [x])) as ->.
    { unfold pull_input_ami_stack_t.drain_iter, pull_input_ami_stack_t.pull, ami.pop.
      simpl. destruct (decide _) as [Heq|_]; [congruence|reflexivity]. }
    apply IH. lia.
Qed.

(** X7 (the pull consumer on a failing stack). When the stack's failing
    height is below its size, the consumer that calls [pull] for as long as
    [can_pull] holds does not come to an end: [can_pull] still holds when
    [pop] fails, and [pull] then reads the pointer that [pop] has not set. The
    push source over the same stack returns. *)
Theorem drain_undefined_on_container_error {T : Type}
    (n : pull_input_ami_stack_t.state T) (h : nat) :
  ami.k_bad (pull_input_ami_stack_t.stack n) = Some h ->
  (h < length (ami.k_items (pull_input_ami_stack_t.stack n)))%nat ->
  pull_input_ami_stack_t.drain n = Undefined /\
  (forall (dest_t : Type) (D : Dest dest_t T) (bs : node) (d : dest_t),
     exists b,
       input_ami_stack_t.go
         (input_ami_stack_t.mk bs (pull_input_ami_stack_t.stack n) d) = Returns b).
Proof.
  intros Hbad Hh. destruct n as [bs [items bad]]. simpl in *. subst bad. split.
  - apply drain_loop_undefined. exact Hh.
  - intros dest_t D bs' d. rewrite (stack_go_stops_at_bad items bs' d h Hh).
    eexists. reflexivity.
Qed.

(** X7 on the stack [7, 8, 9] with a failing second pop. *)
Lemma drain_undefined_on_container_error_witness :
  ami.k_bad (ami.mk_stack [7; 8; 9] (Some 1%nat)) = Some 1%nat /\
  (1 < length [7; 8; 9])%nat /\
  pull_input_ami_stack_t.drain
    (pull_input_ami_stack_t.mk scenarios.idle (ami.mk_stack [7; 8; 9] (Some 1%nat)))
  = Undefined /\
  (forall (dest_t : Type) (D : Dest dest_t Z) (bs : node) (d : dest_t),
     exists b,
       input_ami_stack_t.go
         (input_ami_stack_t.mk bs (ami.mk_stack [7; 8; 9] (Some 1%nat)) d) = Returns b).
Proof.
  split; [reflexivity|]. split; [simpl; lia|].
  apply (drain_undefined_on_container_error
           (pull_input_ami_stack_t.mk scenarios.idle (ami.mk_stack [7; 8; 9] (Some 1%nat)))
           1); [reflexivity|simpl; lia].
Defined.

(** ** The downstream is only pushed to *)



(** ** What propagate touches *)

(** X9 ([propagate] only publishes). In each of the three nodes, [propagate]
    leaves the container, the downstream and the steps reported as they are
    and keeps every value forwarded under another key than ["items"]. The
    value it forwards under ["items"] is the total it declares, whether or not
    the length fits [stream_size_type]; calling it again changes nothing. *)
Theorem propagate_only_publishes {dest_t item_type : Type} `{!Dest dest_t item_type}
    `{!size_width}
    (ns : input_ami_stream_t.state dest_t item_type)
    (nk : input_ami_stack_t.state dest_t item_type)
    (np : pull_input_ami_stack_t.state item_type) :
  (input_ami_stream_t.stream (input_ami_stream_t.propagate ns) = input_ami_stream_t.stream ns /\
   input_ami_stream_t.dest (input_ami_stream_t.propagate ns) = input_ami_stream_t.dest ns /\
   steps_done (input_ami_stream_t.base (input_ami_stream_t.propagate ns)) =
     steps_done (input_ami_stream_t.base ns) /\
   (forall key : string, key <> "items" ->
      forwarded (input_ami_stream_t.base (input_ami_stream_t.propagate ns)) !! key =
      forwarded (input_ami_stream_t.base ns) !! key) /\
   forwarded (input_ami_stream_t.base (input_ami_stream_t.propagate ns)) !! "items" =
     Some (steps_total (input_ami_stream_t.base (input_ami_stream_t.propagate ns))) /\
   input_ami_stream_t.propagate (input_ami_stream_t.propagate ns) =
     input_ami_stream_t.propagate ns) /\
  (input_ami_stack_t.stack (input_ami_stack_t.propagate nk) = input_ami_stack_t.stack nk /\
   input_ami_stack_t.dest (input_ami_stack_t.propagate nk) = input_ami_stack_t.dest nk /\
   steps_done (input_ami_stack_t.base (input_ami_stack_t.propagate nk)) =
     steps_done (input_ami_stack_t.base nk) /\
   (forall key : string, key <> "items" ->
      forwarded (input_ami_stack_t.base (input_ami_stack_t.propagate nk)) !! key =
      forwarded (input_ami_stack_t.base nk) !! key) /\
   forwarded (input_ami_stack_t.base (input_ami_stack_t.propagate nk)) !! "items" =
     Some (steps_total (input_ami_stack_t.base (input_ami_stack_t.propagate nk))) /\
   input_ami_stack_t.propagate (input_ami_stack_t.propagate nk) =
     input_ami_stack_t.propagate nk) /\
  (pull_input_ami_stack_t.stack (pull_input_ami_stack_t.propagate np) =
     pull_input_ami_stack_t.stack np /\
   steps_done (pull_input_ami_stack_t.base (pull_input_ami_stack_t.propagate np)) =
     steps_done (pull_input_ami_stack_t.base np) /\
   (forall key : string, key <> "items" ->
      forwarded (pull_input_ami_stack_t.base (pull_input_ami_stack_t.propagate np)) !! key =
      forwarded (pull_input_ami_stack_t.base np) !! key) /\
   forwarded (pull_input_ami_stack_t.base (pull_input_ami_stack_t.propagate np)) !! "items" =
     Some (steps_total (pull_input_ami_stack_t.base (pull_input_ami_stack_t.propagate np))) /\
   pull_input_ami_stack_t.propagate (pull_input_ami_stack_t.propagate np) =
     pull_input_ami_stack_t.propagate np).
Proof.
  split; [|split].
  - unfold input_ami_stream_t.propagate, set_steps, forward. simpl.
    rewrite insert_insert_eq, lookup_insert_eq.
    repeat split. intros key Hkey. apply lookup_insert_ne. congruence.
  - unfold input_ami_stack_t.propagate, set_steps, forward. simpl.
    rewrite insert_insert_eq, lookup_insert_eq.
    repeat split. intros key Hkey. apply lookup_insert_ne. congruence.
  - unfold pull_input_ami_stack_t.propagate, set_steps, forward. simpl.
    rewrite insert_insert_eq, lookup_insert_eq.
    repeat split. intros key Hkey. apply lookup_insert_ne. congruence.
Qed.
